(** * Page-tree resolution and search/answer aggregation of the GitBook site

    A shallow embedding of [src/lib/pages.ts] (page resolution by path and by
    id, previous/next navigation) and of the search server actions
    ([searchSiteContent], [streamAskQuestion], [transformAnswer]), together
    with the properties stated about them. *)

From Stdlib Require Import ZArith Lia Ascii String.
From stdpp Require Import gmap strings list.

Local Open Scope string_scope.
Local Open Scope list_scope.
#[local] Set Warnings "-register-all".

(** ** The page tree ([RevisionPage] of the API) *)

Module Pages.

(** [RevisionPage] is a tagged union of three variants.  Documents and groups
    carry an [id], a [path], a [title] and their child [pages]; a link has
    neither a path nor children. *)
Inductive RevisionPage : Type :=
| Document (id path title : string) (pages : list RevisionPage)
| Group (id path title : string) (pages : list RevisionPage)
| Link (id title : string).

Definition isLink (p : RevisionPage) : bool :=
  match p with Link _ _ => true | _ => false end.

Definition isDocument (p : RevisionPage) : bool :=
  match p with Document _ _ _ _ => true | _ => false end.

Definition isGroup (p : RevisionPage) : bool :=
  match p with Group _ _ _ _ => true | _ => false end.

Definition pageId (p : RevisionPage) : string :=
  match p with
  | Document i _ _ _ | Group i _ _ _ | Link i _ => i
  end.

Definition pageTitle (p : RevisionPage) : string :=
  match p with
  | Document _ _ t _ | Group _ _ t _ | Link _ t => t
  end.

(** [page.path]; only read by the source on pages that are not links. *)
Definition pagePathOf (p : RevisionPage) : string :=
  match p with
  | Document _ q _ _ | Group _ q _ _ => q
  | Link _ _ => ""
  end.

(** [page.pages]; only read by the source on pages that are not links. *)
Definition pagesOf (p : RevisionPage) : list RevisionPage :=
  match p with
  | Document _ _ _ ps | Group _ _ _ ps => ps
  | Link _ _ => []
  end.

(** Induction over the nested tree: the children of a node satisfy the
    property as well. *)
Section PageInd.
Variable P : RevisionPage -> Prop.
Hypothesis Hdoc : forall i q t ps, Forall P ps -> P (Document i q t ps).
Hypothesis Hgrp : forall i q t ps, Forall P ps -> P (Group i q t ps).
Hypothesis Hlnk : forall i t, P (Link i t).

Fixpoint page_ind' (p : RevisionPage) : P p :=
  match p with
  | Document i q t ps =>
      Hdoc i q t ps
        ((fix all (l : list RevisionPage) : Forall P l :=
            match l with
            | [] => @List.Forall_nil _ P
            | x :: r => @List.Forall_cons _ P x r (page_ind' x) (all r)
            end) ps)
  | Group i q t ps =>
      Hgrp i q t ps
        ((fix all (l : list RevisionPage) : Forall P l :=
            match l with
            | [] => @List.Forall_nil _ P
            | x :: r => @List.Forall_cons _ P x r (page_ind' x) (all r)
            end) ps)
  | Link i t => Hlnk i t
  end.

Lemma pages_ind' (ps : list RevisionPage) : Forall P ps.
Proof. induction ps; constructor; auto using page_ind'. Qed.
End PageInd.

(** The value returned by the resolvers:
    [{ page: RevisionPageDocument; ancestors: AncestorRevisionPage[] }]. *)
Record Resolved : Type := mkResolved {
  page : RevisionPage;
  ancestors : list RevisionPage
}.

(** *** [resolvePageDocument] and [resolveFirstDocument]

    The two functions call each other; the loop of [resolveFirstDocument]
    over the children of a group is the inner [fix]. *)
Fixpoint resolvePageDocument (pg : RevisionPage) (anc : list RevisionPage)
  : option Resolved :=
  match pg with
  | Group _ _ _ pages =>
      (fix firstDocument (ps : list RevisionPage) : option Resolved :=
         match ps with
         | [] => None
         | q :: rest =>
             if isLink q then firstDocument rest
             else resolvePageDocument q (anc ++ [pg])
         end) pages
  | Link _ _ => None
  | Document _ _ _ _ => Some (mkResolved pg anc)
  end.

Fixpoint resolveFirstDocument (pages : list RevisionPage)
  (anc : list RevisionPage) : option Resolved :=
  match pages with
  | [] => None
  | q :: rest =>
      if isLink q then resolveFirstDocument rest anc
      else resolvePageDocument q anc
  end.

(** *** [resolvePagePath]

    [pathChildren pagePath pg anc] is the recursive call
    [iteratePages(page.pages, [...ancestors, page])] of the closure. *)
Fixpoint pathChildren (pagePath : string) (pg : RevisionPage)
  (anc : list RevisionPage) : option Resolved :=
  match pg with
  | Document _ _ _ pages | Group _ _ _ pages =>
      (fix iterate (ps : list RevisionPage) : option Resolved :=
         match ps with
         | [] => None
         | q :: rest =>
             if isLink q then iterate rest
             else if negb (String.eqb (pagePathOf q) pagePath) then
               match pathChildren pagePath q (anc ++ [pg]) with
               | Some result => Some result
               | None => iterate rest
               end
             else resolvePageDocument q (anc ++ [pg])
         end) pages
  | Link _ _ => None
  end.

Fixpoint iteratePagesPath (pagePath : string) (pages : list RevisionPage)
  (anc : list RevisionPage) : option Resolved :=
  match pages with
  | [] => None
  | q :: rest =>
      if isLink q then iteratePagesPath pagePath rest anc
      else if negb (String.eqb (pagePathOf q) pagePath) then
        match pathChildren pagePath q anc with
        | Some result => Some result
        | None => iteratePagesPath pagePath rest anc
        end
      else resolvePageDocument q anc
  end.

Definition resolvePagePath (rootPages : list RevisionPage) (pagePath : string)
  : option Resolved :=
  match pagePath with
  | EmptyString =>
      match resolveFirstDocument rootPages [] with
      | None => None
      | Some firstPage => Some firstPage
      end
  | _ => iteratePagesPath pagePath rootPages []
  end.

(** *** [resolvePageId] *)
Fixpoint idChildren (pageIdArg : string) (pg : RevisionPage)
  (anc : list RevisionPage) : option Resolved :=
  match pg with
  | Document _ _ _ pages | Group _ _ _ pages =>
      (fix iterate (ps : list RevisionPage) : option Resolved :=
         match ps with
         | [] => None
         | q :: rest =>
             if isLink q then iterate rest
             else if String.eqb (pageId q) pageIdArg then
               resolvePageDocument q (anc ++ [pg])
             else
               match idChildren pageIdArg q (anc ++ [pg]) with
               | Some result => Some result
               | None => iterate rest
               end
         end) pages
  | Link _ _ => None
  end.

Fixpoint iteratePagesId (pageIdArg : string) (pages : list RevisionPage)
  (anc : list RevisionPage) : option Resolved :=
  match pages with
  | [] => None
  | q :: rest =>
      if isLink q then iteratePagesId pageIdArg rest anc
      else if String.eqb (pageId q) pageIdArg then
        resolvePageDocument q anc
      else
        match idChildren pageIdArg q anc with
        | Some result => Some result
        | None => iteratePagesId pageIdArg rest anc
        end
  end.

Definition resolvePageId (rootPages : list RevisionPage) (pageIdArg : string)
  : option Resolved :=
  iteratePagesId pageIdArg rootPages [].

(** *** [flattenPages] and [resolvePrevNextPages] *)
Fixpoint flattenChildren (pg : RevisionPage) : list RevisionPage :=
  match pg with
  | Document _ _ _ pages | Group _ _ _ pages =>
      (fix flatten (ps : list RevisionPage) : list RevisionPage :=
         match ps with
         | [] => []
         | q :: rest =>
             if isLink q then flatten rest
             else
               (if isDocument q then [q] else [])
                 ++ flattenChildren q ++ flatten rest
         end) pages
  | Link _ _ => []
  end.

Fixpoint flattenPages (pages : list RevisionPage) : list RevisionPage :=
  match pages with
  | [] => []
  | q :: rest =>
      if isLink q then flattenPages rest
      else
        (if isDocument q then [q] else [])
          ++ flattenChildren q ++ flattenPages rest
  end.

(** [Array.prototype.findIndex]: the index of the first element that passes
    the test, [-1] when there is none. *)
Fixpoint findIndexFrom {A : Type} (f : A -> bool) (l : list A) (i : Z) : Z :=
  match l with
  | [] => (-1)%Z
  | x :: rest => if f x then i else findIndexFrom f rest (i + 1)%Z
  end.

Definition findIndex {A : Type} (f : A -> bool) (l : list A) : Z :=
  findIndexFrom f l 0%Z.

(** [arr[i]]: [undefined] outside of the array, also for a negative index. *)
Definition arrayGet {A : Type} (l : list A) (i : Z) : option A :=
  if (i <? 0)%Z then None else l !! Z.to_nat i.

Record PrevNext : Type := mkPrevNext {
  previous : option RevisionPage;
  next : option RevisionPage
}.

Definition resolvePrevNextPages (rootPages : list RevisionPage)
  (pg : RevisionPage) : PrevNext :=
  let flat := flattenPages rootPages in
  let currentIndex :=
    findIndex (fun p => String.eqb (pageId p) (pageId pg)) flat in
  if (currentIndex =? -1)%Z then mkPrevNext None None
  else
    mkPrevNext (arrayGet flat (currentIndex - 1)%Z)
               (arrayGet flat (currentIndex + 1)%Z).

(** *** Vocabulary of the statements *)

(** Every node of a forest, in pre-order, links included. *)
Fixpoint allChildren (pg : RevisionPage) : list RevisionPage :=
  match pg with
  | Document _ _ _ pages | Group _ _ _ pages =>
      (fix all (ps : list RevisionPage) : list RevisionPage :=
         match ps with
         | [] => []
         | q :: rest => q :: allChildren q ++ all rest
         end) pages
  | Link _ _ => []
  end.

Fixpoint allPages (pages : list RevisionPage) : list RevisionPage :=
  match pages with
  | [] => []
  | q :: rest => q :: allChildren q ++ allPages rest
  end.

(** The data-model invariant: [id] values are unique across the whole tree,
    whatever the kind of the node. *)
Definition uniqueIds (pages : list RevisionPage) : Prop :=
  NoDup (pageId <$> allPages pages).

(** Every node of a forest in pre-order, each with the chain of nodes that
    enclose it, from the root of the forest down; [anc] is the chain above
    the forest itself. *)
Fixpoint positionsUnder (pg : RevisionPage) (anc : list RevisionPage)
  : list (list RevisionPage * RevisionPage) :=
  match pg with
  | Document _ _ _ pages | Group _ _ _ pages =>
      (fix go (ps : list RevisionPage) :=
         match ps with
         | [] => []
         | q :: rest =>
             (anc ++ [pg], q) :: positionsUnder q (anc ++ [pg]) ++ go rest
         end) pages
  | Link _ _ => []
  end.

Fixpoint positions (pages : list RevisionPage) (anc : list RevisionPage)
  : list (list RevisionPage * RevisionPage) :=
  match pages with
  | [] => []
  | q :: rest => (anc, q) :: positionsUnder q anc ++ positions rest anc
  end.

(** The first child of a list that is not a link. *)
Fixpoint firstNonLink (pages : list RevisionPage) : option RevisionPage :=
  match pages with
  | [] => None
  | q :: rest => if isLink q then firstNonLink rest else Some q
  end.

(** The leftmost descent of the specification: from a list of pages, go to
    its first child that is not a link; stop there when it is a document,
    descend into its children when it is a group.  [LeftmostDescent pages
    groups d]: the descent from [pages] ends in the document [d] after going
    through [groups]. *)
Inductive LeftmostDescent
  : list RevisionPage -> list RevisionPage -> RevisionPage -> Prop :=
| descent_document pages d :
    firstNonLink pages = Some d -> isDocument d = true ->
    LeftmostDescent pages [] d
| descent_group pages g groups d :
    firstNonLink pages = Some g -> isGroup g = true ->
    LeftmostDescent (pagesOf g) groups d ->
    LeftmostDescent pages (g :: groups) d.

(** [Located pages anc r]: [r] is a document of the forest [pages], and its
    ancestors are [anc] followed by the chain of nodes, none of them a link,
    that enclose the document inside the forest. *)
Definition Located (pages anc : list RevisionPage) (r : Resolved) : Prop :=
  isDocument (page r) = true
  /\ (exists chain, ancestors r = anc ++ chain
                    /\ Forall (fun a => isLink a = false) chain)
  /\ (ancestors r, page r) ∈ positions pages anc.

(** [ParentChain pages chain x]: [chain] goes from a node of [pages] down
    to the parent of [x], each node being a child of the one before, and
    [x] is a child of the last one ([x] is one of [pages] when the chain is
    empty). *)
Inductive ParentChain
  : list RevisionPage -> list RevisionPage -> RevisionPage -> Prop :=
| chain_root pages x : x ∈ pages -> ParentChain pages [] x
| chain_child pages q chain x :
    q ∈ pages -> isLink q = false ->
    ParentChain (pagesOf q) chain x ->
    ParentChain pages (q :: chain) x.

(** The search shared by [resolvePagePath] and [resolvePageId], with the
    comparison of the path or of the id as a test on the page. *)
Fixpoint searchChildren (test : RevisionPage -> bool) (pg : RevisionPage)
  (anc : list RevisionPage) : option Resolved :=
  match pg with
  | Document _ _ _ pages | Group _ _ _ pages =>
      (fix iterate (ps : list RevisionPage) : option Resolved :=
         match ps with
         | [] => None
         | q :: rest =>
             if isLink q then iterate rest
             else if test q then resolvePageDocument q (anc ++ [pg])
             else
               match searchChildren test q (anc ++ [pg]) with
               | Some result => Some result
               | None => iterate rest
               end
         end) pages
  | Link _ _ => None
  end.

Fixpoint searchPages (test : RevisionPage -> bool)
  (pages : list RevisionPage) (anc : list RevisionPage) : option Resolved :=
  match pages with
  | [] => None
  | q :: rest =>
      if isLink q then searchPages test rest anc
      else if test q then resolvePageDocument q anc
      else
        match searchChildren test q anc with
        | Some result => Some result
        | None => searchPages test rest anc
        end
  end.

(** *** Sample trees *)

(** An empty group in front of a document. *)
Definition emptyGroupFirst : list RevisionPage :=
  [Group "g" "guides" "Guides" []; Document "a" "intro" "Intro" []].

(** A group whose first child is an empty group, before a document. *)
Definition deadEndGroup : RevisionPage :=
  Group "top" "top" "Top"
    [Group "g" "guides" "Guides" []; Document "a" "intro" "Intro" []].

(** The scenario of the specification: a group [guides] holding the document
    [a] and a group [sub] with the document [b]. *)
Definition docA : RevisionPage := Document "a" "intro" "Intro" [].
Definition docB : RevisionPage := Document "b" "intro/deep" "Deep" [].
Definition groupSub : RevisionPage := Group "sub" "sub" "Sub" [docB].
Definition groupGuides : RevisionPage :=
  Group "guides" "guides" "Guides" [docA; groupSub].
Definition guidesTree : list RevisionPage := [groupGuides].

(** A tree with links at every level: before the first group, in front of
    the children of the group, and among the children of a document. *)
Definition docInner : RevisionPage := Document "e" "g/d/e" "E" [].
Definition docOuter : RevisionPage :=
  Document "d" "g/d" "D" [Link "l2" "Elsewhere"; docInner].
Definition groupLinked : RevisionPage :=
  Group "g" "g" "G" [Link "l1" "Outside"; docOuter; Link "l3" "Later"].
Definition linkedTree : list RevisionPage :=
  [Link "l0" "Home"; groupLinked; Link "l4" "About"].

(** Trees that break the invariant on ids: two documents with one id, and
    a document that sits at two places behind a group with its id. *)
Definition twinX : RevisionPage := Document "1" "x" "X" [].
Definition twinY : RevisionPage := Document "1" "y" "Y" [].
Definition twinTree : list RevisionPage := [twinX; twinY].

Definition docD : RevisionPage := Document "d" "p" "D" [].
Definition groupFirst : RevisionPage :=
  Group "first" "first" "First" [Group "d" "shadow" "Shadow" []; docD].
Definition groupSecond : RevisionPage :=
  Group "second" "second" "Second" [docD].
Definition shadowedTree : list RevisionPage := [groupFirst; groupSecond].

End Pages.

(** ** Search and answer aggregation (the search server actions) *)

Module Search.
Import Pages.

(** *** Data of the API *)

Record SpaceURLs : Type := mkSpaceURLs {
  urls_app : string;
  urls_published : option string
}.

Record Space : Type := mkSpace {
  space_id : string;
  space_title : string;
  space_urls : SpaceURLs
}.

(** A site-space; [siteSpace_published] is [siteSpace.urls.published]. *)
Record SiteSpace : Type := mkSiteSpace {
  siteSpace_id : string;
  siteSpace_space : Space;
  siteSpace_published : option string
}.

Record SiteSection : Type := mkSiteSection {
  section_id : string;
  section_title : string;
  section_siteSpaces : list SiteSpace
}.

(** [siteData.structure]: a flat list of site-spaces, or titled sections. *)
Inductive SiteStructure : Type :=
| StructureSiteSpaces (structure : list SiteSpace)
| StructureSections (structure : list SiteSection).

Record SiteData : Type := mkSiteData { siteData_structure : SiteStructure }.

Record SiteContentPointer : Type := mkPointer {
  organizationId : string;
  siteId : string;
  siteSpaceId : option string;
  siteSectionId : option string
}.

Inductive Scope : Type :=
| ScopeAll
| ScopeCurrent (siteSpaceId : string)
| ScopeSpecific (siteSpaceIds : list string).

Record SearchSectionResult : Type := mkSearchSection {
  sr_section_id : string;
  sr_section_title : string;
  sr_section_path : string;
  sr_section_body : string
}.

Record SearchPageResult : Type := mkSearchPage {
  sr_page_id : string;
  sr_page_title : string;
  sr_page_path : string;
  sr_page_sections : option (list SearchSectionResult)
}.

Record SearchSpaceResult : Type := mkSearchSpace {
  sr_space_id : string;
  sr_space_pages : list SearchPageResult
}.

Record SearchResults : Type := mkSearchResults {
  items : list SearchSpaceResult
}.

(** *** View records *)

Record ComputedSectionResult : Type := mkComputedSection {
  cs_id : string;
  cs_title : string;
  cs_href : string;
  cs_body : string
}.

Record ComputedPageResult : Type := mkComputedPage {
  cp_id : string;
  cp_title : string;
  cp_href : string;
  cp_spaceTitle : option string
}.

Inductive OrderedComputedResult : Type :=
| PageResult (p : ComputedPageResult)
| SectionResult (s : ComputedSectionResult).

Record AskAnswerSource : Type := mkAnswerSource {
  as_id : string;
  as_title : string;
  as_href : string
}.

(** The answer document is opaque to this code: it is handed to the
    [DocumentView] component as it is. *)
Definition JSONDocument : Type := string.

(** The [context] given to [DocumentView]. *)
Record DocumentContext : Type := mkDocumentContext {
  mode : string;
  contentRefContext : option string;
  resolveContentRef : string -> option string;
  wrapBlocksInSuspense : bool
}.

(** The React element [<DocumentView document context style />]. *)
Record DocumentView : Type := mkDocumentView {
  dv_document : JSONDocument;
  dv_context : DocumentContext;
  dv_style : list string
}.

Record AskAnswerResult : Type := mkAnswerResult {
  body : option DocumentView;
  followupQuestions : list string;
  sources : list AskAnswerSource
}.

(** A source of an AI answer: a page of a space, or of another kind. *)
Inductive SearchAIAnswerSource : Type :=
| SourcePage (space page : string)
| SourceOther (kind : string).

(** [answer.answer], when present: a document or another rendering. *)
Inductive AnswerContent : Type :=
| ContentDocument (document : JSONDocument)
| ContentMarkdown (markdown : string).

Record SearchAIAnswer : Type := mkAnswer {
  answer_answer : option AnswerContent;
  answer_followupQuestions : list string;
  answer_sources : list SearchAIAnswerSource
}.

Record AnswerChunk : Type := mkChunk { chunk_answer : SearchAIAnswer }.

(** The request of [streamAskInSite]. *)
Record AskRequest : Type := mkAskRequest {
  ask_question : string;
  ask_context : option string;
  ask_scope_mode : string;
  ask_includedSiteSpaces : option (list string);
  ask_format : string
}.

(** *** Calls to the backend

    A promise either fulfils with a value or rejects.  The calls made to the
    API are recorded, in order, with the moment they start and the moment
    they settle. *)
Inductive Outcome (A : Type) : Type :=
| Fulfilled (a : A)
| Rejected.
Arguments Fulfilled {A} a.
Arguments Rejected {A}.

(** The search query, a JavaScript string of which the code reads the
    [length]: the sequence of its UTF-16 code units, so that [query.length]
    is the length of the list. *)
Definition JSString : Type := list N.

Inductive ApiCall : Type :=
| CallSearchSiteContent (organizationId siteId : string) (query : JSString)
    (scope : Scope) (cacheBust : option string)
| CallGetSiteData (pointer : SiteContentPointer)
| CallGetSpaceContentData (spaceId : string).

Inductive Event : Type :=
| Started (c : ApiCall)
| Settled (c : ApiCall).

Definition Trace : Type := list Event.

(** The collaborators: the API client (an absent answer is a rejected
    promise) and the link helpers of [lib/links]. *)
Record Collaborators : Type := mkCollaborators {
  api_searchSiteContent :
    string -> string -> JSString -> Scope -> option string ->
    option SearchResults;
  api_getSiteData : SiteContentPointer -> option SiteData;
  (* of two calls in flight at once, which one the backend answers first:
     the code does not decide it *)
  siteDataSettlesFirst : bool;
  api_getSpaceContentData : string -> option (list RevisionPage);
  (* the chunks delivered by the stream, empty frames included *)
  api_streamAskInSite :
    string -> string -> AskRequest -> list (option AnswerChunk);
  absoluteHref : string -> string;
  pageHref : list RevisionPage -> RevisionPage -> string
}.

Definition isFulfilled {A : Type} (o : Outcome A) : bool :=
  match o with
  | Fulfilled _ => true
  | Rejected => false
  end.

Definition settle {A : Type} (response : option A) : Outcome A :=
  match response with
  | Some a => Fulfilled a
  | None => Rejected
  end.

(** *** JavaScript helpers *)

(** [a || b] on strings: the empty string is falsy. *)
Definition orString (a b : string) : string :=
  match a with
  | EmptyString => b
  | _ => a
  end.

(** [x ? x : undefined] on an optional string. *)
Definition truthy (x : option string) : option string :=
  match x with
  | Some EmptyString => None
  | _ => x
  end.

Fixpoint endsWithSlash (s : string) : bool :=
  match s with
  | EmptyString => false
  | String c EmptyString => Ascii.eqb c "/"%char
  | String _ rest => endsWithSlash rest
  end.

Definition startsWithSlash (s : string) : bool :=
  match s with
  | String c _ => Ascii.eqb c "/"%char
  | EmptyString => false
  end.

(** [s.slice(1)] *)
Definition slice1 (s : string) : string :=
  match s with
  | String _ rest => rest
  | EmptyString => EmptyString
  end.

(** Modelled from the spec: [filterOutNullable] of [lib/typescript] is not
    part of the sources; a source that cannot be resolved is dropped, the
    others are kept in their order. *)
Fixpoint filterOutNullable {A : Type} (l : list (option A)) : list A :=
  match l with
  | [] => []
  | Some a :: rest => a :: filterOutNullable rest
  | None :: rest => filterOutNullable rest
  end.

(** [set.add(x)] on a [Set] kept in insertion order. *)
Definition setAdd (set : list string) (x : string) : list string :=
  if bool_decide (x ∈ set) then set else set ++ [x].

(** *** [transformSectionsAndPage] and its two callers *)
Section Transform.
Context (collab : Collaborators).

Definition getURL (path : string) (spaceURL : option string) : string :=
  match spaceURL with
  | Some (String c u) =>
      let spaceURL := String c u in
      let spaceURL :=
        if negb (endsWithSlash spaceURL) then (spaceURL ++ "/")%string
        else spaceURL in
      let path := if startsWithSlash path then slice1 path else path in
      (spaceURL ++ path)%string
  | _ => absoluteHref collab path
  end.

Definition transformSectionsAndPage (item : SearchPageResult)
  (space : option Space) (spaceURL : option string)
  : ComputedPageResult * list ComputedSectionResult :=
  let sections :=
    match sr_page_sections item with
    | Some sections =>
        map (fun section =>
               mkComputedSection
                 (sr_page_id item ++ "/" ++ sr_section_id section)%string
                 (sr_section_title section)
                 (getURL (sr_section_path section) spaceURL)
                 (sr_section_body section))
            sections
    | None => []
    end in
  let page :=
    mkComputedPage (sr_page_id item) (sr_page_title item)
      (getURL (sr_page_path item) spaceURL)
      (option_map space_title space) in
  (page, sections).

Definition transformSitePageResult (item : SearchPageResult)
  (siteSpace : option SiteSpace) : list OrderedComputedResult :=
  let '(page, sections) :=
    transformSectionsAndPage item
      (option_map siteSpace_space siteSpace)
      (match siteSpace with
       | Some s => siteSpace_published s
       | None => None
       end) in
  PageResult page :: map SectionResult sections.

Definition transformPageResult (item : SearchPageResult)
  (space : option Space) : list OrderedComputedResult :=
  let '(page, sections) :=
    transformSectionsAndPage item space
      (match space with
       | Some s =>
           match urls_published (space_urls s) with
           | Some u => Some u
           | None => Some (urls_app (space_urls s))
           end
       | None => None
       end) in
  PageResult page :: map SectionResult sections.
End Transform.

(** *** [searchSiteContent] *)

Record SearchArgs : Type := mkSearchArgs {
  arg_pointer : SiteContentPointer;
  arg_query : JSString;
  arg_scope : Scope;
  arg_cacheBust : option string
}.

(** The site-space of a section with [title: section.title ||
    siteSpace.space.title]. *)
Definition withSectionTitle (section : SiteSection) (siteSpace : SiteSpace)
  : SiteSpace :=
  mkSiteSpace (siteSpace_id siteSpace)
    (mkSpace (space_id (siteSpace_space siteSpace))
       (orString (section_title section)
          (space_title (siteSpace_space siteSpace)))
       (space_urls (siteSpace_space siteSpace)))
    (siteSpace_published siteSpace).

(** The [siteSpaces] computed from the site structure: the structure itself
    when it is flat, the [reduce] over the sections otherwise. *)
Definition siteSpacesOf (siteStructure : SiteStructure) : list SiteSpace :=
  match siteStructure with
  | StructureSiteSpaces structure => structure
  | StructureSections structure =>
      fold_left
        (fun prev section =>
           let sectionSiteSpaces :=
             map (withSectionTitle section) (section_siteSpaces section) in
           prev ++ sectionSiteSpaces)
        structure []
  end.

Definition needsStructure (scope : Scope) : bool :=
  match scope with
  | ScopeAll => true
  | ScopeCurrent _ => true
  | ScopeSpecific siteSpaceIds => (1 <? length siteSpaceIds)%nat
  end.

(** [query.length] counts the UTF-16 code units of the query.  The two
    promises of [Promise.all] are created one after the other and settle in
    the order the backend answers. *)
Definition searchSiteContent (collab : Collaborators) (args : SearchArgs)
  : Outcome (list OrderedComputedResult) * Trace :=
  let pointer := arg_pointer args in
  let scope := arg_scope args in
  let query := arg_query args in
  let cacheBust := arg_cacheBust args in
  if (length query <=? 1)%nat then (Fulfilled [], [])
  else
    let searchCall :=
      CallSearchSiteContent (organizationId pointer) (siteId pointer) query
        scope cacheBust in
    let dataCall := CallGetSiteData pointer in
    let wanted := needsStructure scope in
    (* both promises of [Promise.all] are created before either settles *)
    let trace :=
      [Started searchCall]
        ++ (if wanted then
              Started dataCall
                :: (if siteDataSettlesFirst collab then
                      [Settled dataCall; Settled searchCall]
                    else [Settled searchCall; Settled dataCall])
            else [Settled searchCall]) in
    let searched :=
      settle (api_searchSiteContent collab (organizationId pointer)
                (siteId pointer) query scope cacheBust) in
    let fetched : Outcome (option SiteData) :=
      if wanted then
        match api_getSiteData collab pointer with
        | Some d => Fulfilled (Some d)
        | None => Rejected
        end
      else Fulfilled None in
    match searched, fetched with
    | Fulfilled searchResults, Fulfilled siteData =>
        let siteStructure := option_map siteData_structure siteData in
        let siteSpaces := option_map siteSpacesOf siteStructure in
        match siteSpaces with
        | Some siteSpaces =>
            (Fulfilled
               (concat (concat
                  (map (fun spaceItem =>
                          let siteSpace :=
                            find (fun siteSpace =>
                                    String.eqb
                                      (space_id (siteSpace_space siteSpace))
                                      (sr_space_id spaceItem))
                                 siteSpaces in
                          map (fun item =>
                                 transformSitePageResult collab item siteSpace)
                              (sr_space_pages spaceItem))
                       (items searchResults)))),
             trace)
        | None =>
            (Fulfilled
               (concat (concat
                  (map (fun spaceItem =>
                          map (fun item => transformPageResult collab item None)
                              (sr_space_pages spaceItem))
                       (items searchResults)))),
             trace)
        end
    | _, _ => (Rejected, trace)
    end.

(** *** The two server actions that call [searchSiteContent] *)

Definition searchAllSiteContent (collab : Collaborators) (query : JSString)
  (pointer : SiteContentPointer)
  : Outcome (list OrderedComputedResult) * Trace :=
  searchSiteContent collab (mkSearchArgs pointer query ScopeAll None).

(** [assert(siteSpaceId, ...)] throws when the id is missing or empty: the
    promise of the action rejects before anything is called. *)
Definition searchSiteSpaceContent (collab : Collaborators) (query : JSString)
  (pointer : SiteContentPointer) (revisionId : string)
  : Outcome (list OrderedComputedResult) * Trace :=
  match truthy (siteSpaceId pointer) with
  | None => (Rejected, [])
  | Some siteSpaceId =>
      searchSiteContent collab
        (mkSearchArgs pointer query
           (match truthy (siteSectionId pointer) with
            | Some _ => ScopeCurrent siteSpaceId
            | None => ScopeSpecific [siteSpaceId]
            end)
           (Some revisionId))
  end.

(** *** Reading a list of results *)

(** The kind of a view record ([true] for a page) with its id. *)
Definition resultKey (r : OrderedComputedResult) : bool * string :=
  match r with
  | PageResult p => (true, cp_id p)
  | SectionResult s => (false, cs_id s)
  end.

Definition resultHref (r : OrderedComputedResult) : string :=
  match r with
  | PageResult p => cp_href p
  | SectionResult s => cs_href s
  end.

(** The keys expected for a page hit of the backend: the page, then its
    sections under [<pageId>/<sectionId>]. *)
Definition hitKeys (item : SearchPageResult) : list (bool * string) :=
  (true, sr_page_id item)
    :: map (fun section =>
              (false, (sr_page_id item ++ "/" ++ sr_section_id section)%string))
         (match sr_page_sections item with
          | Some sections => sections
          | None => []
          end).

(** The page hits of a search, space after space. *)
Definition hitPages (searchResults : SearchResults) : list SearchPageResult :=
  concat (map sr_space_pages (items searchResults)).

(** The non-empty chunks of a stream. *)
Definition answerChunks (stream : list (option AnswerChunk))
  : list AnswerChunk :=
  omap (fun chunk => chunk) stream.

(** *** [transformAnswer] and [streamAskQuestion]

    [spaceData] is the [Map] shared by the chunks of one stream.  A task
    reads and updates it, records its calls to the API, and fulfils or
    rejects. *)
Abbreviation SpaceData := (gmap string (list RevisionPage)).

Definition Task (A : Type) : Type :=
  SpaceData -> Outcome A * SpaceData * Trace.

Definition ret {A : Type} (a : A) : Task A :=
  fun spaceData => (Fulfilled a, spaceData, []).

Definition bind {A B : Type} (m : Task A) (k : A -> Task B) : Task B :=
  fun spaceData =>
    match m spaceData with
    | (Fulfilled a, spaceData', t) =>
        let '(o, spaceData'', t') := k a spaceData' in
        (o, spaceData'', t ++ t')
    | (Rejected, spaceData', t) => (Rejected, spaceData', t)
    end.

Notation "'let*' x ':=' m 'in' k" := (bind m (fun x => k))
  (at level 10, x name, m at level 100, k at level 200).

(** [await] of a call to the API. *)
Definition await {A : Type} (c : ApiCall) (response : option A) : Task A :=
  fun spaceData => (settle response, spaceData, [Started c; Settled c]).

Definition spaceDataHas (spaceId : string) : Task bool :=
  fun spaceData =>
    (Fulfilled (bool_decide (is_Some (spaceData !! spaceId))), spaceData, []).

Definition spaceDataSet (spaceId : string) (pages : list RevisionPage)
  : Task unit :=
  fun spaceData => (Fulfilled tt, <[spaceId := pages]> spaceData, []).

Definition spaceDataRead : Task SpaceData :=
  fun spaceData => (Fulfilled spaceData, spaceData, []).

(** Modelled from the spec: [pMap] of the p-map package with
    [concurrency: 1] is not part of the sources; the fetches are serialized,
    the mapper runs on an element once the promise of the one before has
    fulfilled, and the first rejection rejects the whole. *)
Fixpoint pMapSerial {A : Type} (input : list A) (mapper : A -> Task unit)
  : Task unit :=
  match input with
  | [] => ret tt
  | x :: rest => let* _ := mapper x in pMapSerial rest mapper
  end.

Section Answer.
Context (collab : Collaborators).

(** The unique space ids referenced by the page sources of the answer. *)
Definition referencedSpaces (answer : SearchAIAnswer) : list string :=
  fold_left
    (fun set source =>
       match source with
       | SourcePage space _ => setAdd set space
       | SourceOther _ => set
       end)
    (answer_sources answer) [].

Definition fetchSpace (spaceId : string) : Task unit :=
  let* known := spaceDataHas spaceId in
  if (known : bool) then ret tt
  else
    let* pages :=
      await (CallGetSpaceContentData spaceId)
            (api_getSpaceContentData collab spaceId) in
    spaceDataSet spaceId pages.

Definition resolveSource (spaceData : SpaceData)
  (source : SearchAIAnswerSource) : option AskAnswerSource :=
  match source with
  | SourceOther _ => None
  | SourcePage space page =>
      match spaceData !! space with
      | None => None
      | Some pages =>
          match resolvePageId pages page with
          | None => None
          | Some resolved =>
              Some (mkAnswerSource page
                      (pageTitle (Pages.page resolved))
                      (pageHref collab pages (Pages.page resolved)))
          end
      end
  end.

Definition renderBody (content : option AnswerContent)
  : option DocumentView :=
  match content with
  | Some (ContentDocument document) =>
      Some (mkDocumentView document
              (mkDocumentContext "default" None (fun _ => None) false)
              ["space-y-5"])
  | _ => None
  end.

Definition transformAnswer (answer : SearchAIAnswer)
  : Task AskAnswerResult :=
  let spaces := referencedSpaces answer in
  let* _ := pMapSerial spaces fetchSpace in
  let* spaceData := spaceDataRead in
  let sources :=
    filterOutNullable (map (resolveSource spaceData) (answer_sources answer)) in
  ret (mkAnswerResult (renderBody (answer_answer answer))
         (answer_followupQuestions answer) sources).

(** The loop of the generator over the chunks delivered by the stream:
    the results yielded, and whether the generator completed or threw. *)
Fixpoint consumeStream (stream : list (option AnswerChunk))
  (spaceData : SpaceData)
  : list AskAnswerResult * Outcome unit * SpaceData * Trace :=
  match stream with
  | [] => ([], Fulfilled tt, spaceData, [])
  | None :: rest => consumeStream rest spaceData
  | Some chunk :: rest =>
      match transformAnswer (chunk_answer chunk) spaceData with
      | (Fulfilled encoded, spaceData', t) =>
          let '(yielded, o, spaceData'', t') :=
            consumeStream rest spaceData' in
          (encoded :: yielded, o, spaceData'', t ++ t')
      | (Rejected, spaceData', t) => ([], Rejected, spaceData', t)
      end
  end.

(** The chunks delivered by [streamAskInSite] for the question. *)
Definition askStream (organizationId siteId : string)
  (siteSpaceId : option string) (question : string)
  : list (option AnswerChunk) :=
  api_streamAskInSite collab organizationId siteId
    (mkAskRequest question (truthy siteSpaceId) "default"
       (option_map (fun s => [s]) (truthy siteSpaceId)) "document").

(** [streamAskQuestion]: the cache is created empty for the stream. *)
Definition streamAskQuestion (organizationId siteId : string)
  (siteSpaceId : option string) (question : string)
  : list AskAnswerResult * Outcome unit * SpaceData * Trace :=
  consumeStream (askStream organizationId siteId siteSpaceId question) ∅.
End Answer.

(** The components of a run of the generator. *)
Definition yieldedOf
  (run : list AskAnswerResult * Outcome unit * SpaceData * Trace)
  : list AskAnswerResult := run.1.1.1.

Definition outcomeOf
  (run : list AskAnswerResult * Outcome unit * SpaceData * Trace)
  : Outcome unit := run.1.1.2.

Definition traceOf
  (run : list AskAnswerResult * Outcome unit * SpaceData * Trace)
  : Trace := run.2.

(** *** Reading a trace *)

(** The calls made along a trace, in the order they were started. *)
Fixpoint startedCalls (t : Trace) : list ApiCall :=
  match t with
  | [] => []
  | Started c :: rest => c :: startedCalls rest
  | Settled _ :: rest => startedCalls rest
  end.

(** The spaces whose page list was requested, in order. *)
Fixpoint fetchedSpaces (t : Trace) : list string :=
  match t with
  | [] => []
  | Started (CallGetSpaceContentData spaceId) :: rest =>
      spaceId :: fetchedSpaces rest
  | _ :: rest => fetchedSpaces rest
  end.

(** The largest number of calls in flight at once along a trace, [n] being
    in flight at its start. *)
Fixpoint maxInFlight (n : nat) (t : Trace) : nat :=
  match t with
  | [] => n
  | Started _ :: rest => Nat.max n (maxInFlight (S n) rest)
  | Settled _ :: rest => Nat.max n (maxInFlight (Nat.pred n) rest)
  end.

(** The calls in flight at the end of a trace. *)
Fixpoint inFlightAfter (n : nat) (t : Trace) : nat :=
  match t with
  | [] => n
  | Started _ :: rest => inFlightAfter (S n) rest
  | Settled _ :: rest => inFlightAfter (Nat.pred n) rest
  end.

(** The spaces referenced by the page sources of the chunks of a stream. *)
Definition sourceSpace (source : SearchAIAnswerSource) : option string :=
  match source with
  | SourcePage space _ => Some space
  | SourceOther _ => None
  end.

Definition chunkSpaces (chunk : option AnswerChunk) : list string :=
  match chunk with
  | Some c => omap sourceSpace (answer_sources (chunk_answer c))
  | None => []
  end.

(** A trace in which every call settles before the next one starts. *)
Inductive Serialized : Trace -> Prop :=
| serialized_nil : Serialized []
| serialized_call c t : Serialized t -> Serialized (Started c :: Settled c :: t).

(** What a run of the fetches over [spaces] does to the cache and to the
    trace. *)
Record FetchRun (collab : Collaborators) (spaces : list string) (before : SpaceData)
  (completed : bool) (after : SpaceData) (t : Trace) : Prop := {
  run_serialized : Serialized t;
  run_nodup : NoDup (fetchedSpaces t);
  run_fresh : forall s, s ∈ fetchedSpaces t -> before !! s = None /\ s ∈ spaces;
  run_kept : forall s pages, before !! s = Some pages -> after !! s = Some pages;
  run_from_api : forall s pages,
    after !! s = Some pages ->
    before !! s = Some pages
    \/ (s ∈ fetchedSpaces t /\ api_getSpaceContentData collab s = Some pages);
  run_cached : completed = true ->
    (forall s, s ∈ spaces -> is_Some (after !! s))
    /\ (forall s, s ∈ fetchedSpaces t -> is_Some (after !! s));
  run_rejected : completed = false ->
    exists s, s ∈ spaces /\ api_getSpaceContentData collab s = None
}.

(** The number of times the page list of [spaceId] is requested along a
    trace. *)
Fixpoint countFetches (spaceId : string) (t : Trace) : nat :=
  match t with
  | [] => 0
  | Started (CallGetSpaceContentData s) :: rest =>
      (if String.eqb s spaceId then 1 else 0) + countFetches spaceId rest
  | _ :: rest => countFetches spaceId rest
  end.

(** *** The sources of an answer, in the words of the specification

    The page sources of a chunk, as pairs of a space and a page id; those
    whose page id resolves in the cached page list of their space; and what
    the view record of such a source is. *)
Definition pageSourceOf (source : SearchAIAnswerSource)
  : option (string * string) :=
  match source with
  | SourcePage space page => Some (space, page)
  | SourceOther _ => None
  end.

Definition resolvesIn (spaceData : SpaceData) (ref : string * string) : bool :=
  match spaceData !! ref.1 with
  | Some pages =>
      match resolvePageId pages ref.2 with
      | Some _ => true
      | None => false
      end
  | None => false
  end.

Definition resolvablePageSources (spaceData : SpaceData)
  (answer : SearchAIAnswer) : list (string * string) :=
  List.filter (resolvesIn spaceData)
    (omap pageSourceOf (answer_sources answer)).

Definition describes (collab : Collaborators) (spaceData : SpaceData)
  (out : AskAnswerSource) (ref : string * string) : Prop :=
  exists pages resolved,
    spaceData !! ref.1 = Some pages
    /\ resolvePageId pages ref.2 = Some resolved
    /\ out = mkAnswerSource ref.2 (pageTitle (Pages.page resolved))
               (pageHref collab pages (Pages.page resolved)).

(** The titles of the site-spaces of a sectioned structure, in the words of
    the code: the title of the section unless it is empty. *)
Definition sectionedTitle (section : SiteSection) (siteSpace : SiteSpace)
  : string :=
  if bool_decide (section_title section = "") then
    space_title (siteSpace_space siteSpace)
  else section_title section.

(** A result takes its body and its follow-up questions from a chunk. *)
Definition FromChunk (result : AskAnswerResult) (chunk : AnswerChunk) : Prop :=
  followupQuestions result
  = answer_followupQuestions (chunk_answer chunk)
  /\ body result = renderBody (answer_answer (chunk_answer chunk)).

(** A source of a result links to a document that its id resolves to in the
    page list that the backend returned for some space. *)
Definition LinksToPage (collab : Collaborators) (out : AskAnswerSource)
  : Prop :=
  exists space pages resolved,
    api_getSpaceContentData collab space = Some pages
    /\ resolvePageId pages (as_id out) = Some resolved
    /\ isDocument (Pages.page resolved) = true
    /\ as_title out = pageTitle (Pages.page resolved)
    /\ as_href out = pageHref collab pages (Pages.page resolved).

(** [uncached spaceData s]: the space [s] is not in the cache. *)
Definition uncached (spaceData : SpaceData) (s : string) : bool :=
  bool_decide (spaceData !! s = None).

(** *** Sample data *)


Definition sampleCollaborators
  (getSpaceContentData : string -> option (list RevisionPage))
  (stream : list (option AnswerChunk)) : Collaborators :=
  mkCollaborators
    (fun _ _ _ _ _ => Some (mkSearchResults []))
    (fun _ => Some (mkSiteData (StructureSiteSpaces [])))
    false
    getSpaceContentData
    (fun _ _ _ => stream)
    (fun path => path)
    (fun _ pg => pagePathOf pg).

(** A backend on which every fetch of a page list fails. *)
Definition failingBackend : Collaborators :=
  sampleCollaborators (fun _ => None) [].

(** An answer whose only source is a page of the space [S]. *)
Definition answerFromS : SearchAIAnswer :=
  mkAnswer (Some (ContentDocument "doc")) ["What next?"]
    [SourcePage "S" "p1"].

(** A backend that knows the space [S], which has one page [p2]. *)
Definition backendWithS : Collaborators :=
  sampleCollaborators
    (fun spaceId =>
       if String.eqb spaceId "S" then Some [Document "p2" "intro" "Intro" []]
       else None)
    [Some (mkChunk answerFromS); None;
     Some (mkChunk (mkAnswer None []
                      [SourcePage "S" "p2"; SourceOther "entity";
                       SourcePage "S" "p1"]))].

Definition apiSpace : Space :=
  mkSpace "space-api" "API" (mkSpaceURLs "https://app/api" None).

Definition apiSiteSpace : SiteSpace :=
  mkSiteSpace "ss-api" apiSpace (Some "https://docs/api").

Definition guidesSection : SiteSection :=
  mkSiteSection "sec-guides" "Guides" [apiSiteSpace].

(** The query [guide], and the query made of the euro sign alone: one
    character, one code unit (U+20AC), three bytes in UTF-8. *)
Definition guideQuery : JSString := [103; 117; 105; 100; 101]%N.
Definition euroQuery : JSString := [8364]%N.

Definition sampleHit : SearchPageResult :=
  mkSearchPage "page1" "Page" "/guide/page"
    (Some [mkSearchSection "s1" "Section" "guide/page#s1" "text"]).

(** A backend whose search returns one hit in the space [space-api], on a
    site with the single flat site-space [apiSiteSpace]. *)
Definition searchBackend : Collaborators :=
  mkCollaborators
    (fun _ _ _ _ _ =>
       Some (mkSearchResults [mkSearchSpace "space-api" [sampleHit]]))
    (fun _ => Some (mkSiteData (StructureSiteSpaces [apiSiteSpace])))
    true
    (fun _ => None)
    (fun _ _ _ => [])
    (fun path => ("https://site/" ++ path)%string)
    (fun _ pg => pagePathOf pg).

End Search.

(** * Properties of the page resolvers *)

Import Pages.

(** *** Unfolding equations of the nested loops *)

Lemma resolvePageDocument_group i q t ps anc :
  resolvePageDocument (Group i q t ps) anc
  = resolveFirstDocument ps (anc ++ [Group i q t ps]).
Proof.
  simpl. generalize (anc ++ [Group i q t ps]). intros a.
  induction ps as [|x r IH]; simpl; [reflexivity|].
  destruct (isLink x); auto.
Qed.

Lemma pathChildren_eq pagePath pg anc :
  pathChildren pagePath pg anc
  = iteratePagesPath pagePath (pagesOf pg) (anc ++ [pg]).
Proof.
  destruct pg as [i q t ps|i q t ps|i t]; simpl; [| |reflexivity];
    generalize (anc ++ [Document i q t ps]), (anc ++ [Group i q t ps]);
    intros a b;
    (induction ps as [|x r IH]; simpl; [reflexivity|]);
    rewrite IH; reflexivity.
Qed.

Lemma idChildren_eq pageIdArg pg anc :
  idChildren pageIdArg pg anc
  = iteratePagesId pageIdArg (pagesOf pg) (anc ++ [pg]).
Proof.
  destruct pg as [i q t ps|i q t ps|i t]; simpl; [| |reflexivity];
    generalize (anc ++ [Document i q t ps]), (anc ++ [Group i q t ps]);
    intros a b;
    (induction ps as [|x r IH]; simpl; [reflexivity|]);
    rewrite IH; reflexivity.
Qed.

Lemma flattenChildren_eq pg : flattenChildren pg = flattenPages (pagesOf pg).
Proof.
  destruct pg as [i q t ps|i q t ps|i t]; simpl; [| |reflexivity];
    (induction ps as [|x r IH]; simpl; [reflexivity|]);
    rewrite IH; reflexivity.
Qed.

Lemma allChildren_eq pg : allChildren pg = allPages (pagesOf pg).
Proof.
  destruct pg as [i q t ps|i q t ps|i t]; simpl; [| |reflexivity];
    (induction ps as [|x r IH]; simpl; [reflexivity|]);
    rewrite IH; reflexivity.
Qed.

Lemma positionsUnder_eq pg anc :
  positionsUnder pg anc = positions (pagesOf pg) (anc ++ [pg]).
Proof.
  destruct pg as [i q t ps|i q t ps|i t]; simpl; [| |reflexivity];
    generalize (anc ++ [Document i q t ps]), (anc ++ [Group i q t ps]);
    intros a b;
    (induction ps as [|x r IH]; simpl; [reflexivity|]);
    rewrite IH; reflexivity.
Qed.

(** Induction over a forest: the children of the first tree, then the
    remaining trees. *)
Lemma forest_ind (P : list RevisionPage -> Prop) :
  P [] ->
  (forall q rest, P (pagesOf q) -> P rest -> P (q :: rest)) ->
  forall ps, P ps.
Proof.
  intros Hnil Hcons.
  assert (Hq : forall q, P (pagesOf q)).
  { induction q as [i q t ps IH|i q t ps IH|i t] using page_ind'; simpl;
      [| |exact Hnil];
      (induction IH as [|x r Hx _ IHr]; [exact Hnil|apply Hcons; assumption]). }
  induction ps as [|x r IH]; [exact Hnil|apply Hcons; auto].
Qed.

Lemma resolveFirstDocument_cons q rest anc :
  resolveFirstDocument (q :: rest) anc
  = if isLink q then resolveFirstDocument rest anc
    else resolvePageDocument q anc.
Proof. reflexivity. Qed.

Lemma resolvePageDocument_nonlink q anc :
  isLink q = false ->
  resolvePageDocument q anc
  = if isDocument q then Some (mkResolved q anc)
    else resolveFirstDocument (pagesOf q) (anc ++ [q]).
Proof.
  destruct q as [i p t ps|i p t ps|i t]; intros H; try discriminate.
  - reflexivity.
  - apply resolvePageDocument_group.
Qed.

Lemma iteratePagesId_cons pageIdArg q rest anc :
  iteratePagesId pageIdArg (q :: rest) anc
  = if isLink q then iteratePagesId pageIdArg rest anc
    else if String.eqb (pageId q) pageIdArg then resolvePageDocument q anc
    else match iteratePagesId pageIdArg (pagesOf q) (anc ++ [q]) with
         | Some result => Some result
         | None => iteratePagesId pageIdArg rest anc
         end.
Proof. simpl. rewrite idChildren_eq. reflexivity. Qed.

Lemma iteratePagesPath_cons pagePath q rest anc :
  iteratePagesPath pagePath (q :: rest) anc
  = if isLink q then iteratePagesPath pagePath rest anc
    else if negb (String.eqb (pagePathOf q) pagePath) then
      match iteratePagesPath pagePath (pagesOf q) (anc ++ [q]) with
      | Some result => Some result
      | None => iteratePagesPath pagePath rest anc
      end
    else resolvePageDocument q anc.
Proof. simpl. rewrite pathChildren_eq. reflexivity. Qed.

Lemma flattenPages_cons q rest :
  flattenPages (q :: rest)
  = if isLink q then flattenPages rest
    else (if isDocument q then [q] else [])
           ++ flattenPages (pagesOf q) ++ flattenPages rest.
Proof. simpl. rewrite flattenChildren_eq. reflexivity. Qed.

Lemma allPages_cons q rest :
  allPages (q :: rest) = q :: allPages (pagesOf q) ++ allPages rest.
Proof. simpl. rewrite allChildren_eq. reflexivity. Qed.

Lemma positions_cons q rest anc :
  positions (q :: rest) anc
  = (anc, q) :: positions (pagesOf q) (anc ++ [q]) ++ positions rest anc.
Proof. simpl. rewrite positionsUnder_eq. reflexivity. Qed.

Lemma positions_snd pages : forall anc, (positions pages anc).*2 = allPages pages.
Proof.
  induction pages as [|q rest IHq IHrest] using forest_ind; intros anc;
    [reflexivity|].
  rewrite positions_cons, allPages_cons, fmap_cons, fmap_app, IHq, IHrest.
  reflexivity.
Qed.

Lemma isDocument_not_link q : isDocument q = true -> isLink q = false.
Proof. destruct q; simpl; congruence. Qed.

Lemma isGroup_not_link q : isGroup q = true -> isLink q = false.
Proof. destruct q; simpl; congruence. Qed.

Lemma isGroup_not_document q : isGroup q = true -> isDocument q = false.
Proof. destruct q; simpl; congruence. Qed.

Lemma nonlink_cases q :
  isLink q = false -> isDocument q = true \/ isGroup q = true.
Proof. destruct q; simpl; auto; discriminate. Qed.

(** *** The leftmost descent *)

Lemma firstNonLink_Some pages q :
  firstNonLink pages = Some q -> isLink q = false /\ q ∈ pages.
Proof.
  induction pages as [|x r IH]; simpl; [discriminate|].
  destruct (isLink x) eqn:E.
  - intros H. destruct (IH H). split; [assumption|]. by apply list_elem_of_further.
  - intros [= ->]. split; [assumption|]. apply list_elem_of_here.
Qed.

Lemma resolveFirstDocument_firstNonLink pages anc :
  resolveFirstDocument pages anc
  = match firstNonLink pages with
    | Some q => resolvePageDocument q anc
    | None => None
    end.
Proof.
  induction pages as [|x r IH]; [reflexivity|].
  rewrite resolveFirstDocument_cons. simpl. destruct (isLink x); auto.
Qed.

Lemma resolveFirstDocument_descent pages groups d :
  LeftmostDescent pages groups d ->
  forall anc,
    resolveFirstDocument pages anc = Some (mkResolved d (anc ++ groups)).
Proof.
  induction 1 as [pages d Hf Hd|pages g groups d Hf Hg _ IH]; intros anc;
    rewrite resolveFirstDocument_firstNonLink, Hf.
  - rewrite resolvePageDocument_nonlink by (by apply isDocument_not_link).
    rewrite Hd, app_nil_r. reflexivity.
  - rewrite resolvePageDocument_nonlink by (by apply isGroup_not_link).
    rewrite (isGroup_not_document _ Hg), IH, <- app_assoc. reflexivity.
Qed.

Lemma descent_resolveFirstDocument pages :
  forall anc r,
    resolveFirstDocument pages anc = Some r ->
    exists groups,
      LeftmostDescent pages groups (page r) /\ ancestors r = anc ++ groups.
Proof.
  induction pages as [|q rest IHq IHrest] using forest_ind; intros anc r;
    [discriminate|].
  rewrite resolveFirstDocument_cons. destruct (isLink q) eqn:El.
  - intros H. destruct (IHrest _ _ H) as (groups & Hd & Ha).
    exists groups. split; [|assumption].
    inversion Hd; subst; [apply descent_document|apply descent_group];
      simpl; rewrite ?El; assumption.
  - rewrite resolvePageDocument_nonlink by assumption.
    destruct (isDocument q) eqn:Ed.
    + intros [= <-]. exists []. simpl. rewrite app_nil_r. split; [|reflexivity].
      apply descent_document; simpl; rewrite ?El; auto.
    + intros H. destruct (IHq _ _ H) as (groups & Hd & Ha).
      exists (q :: groups). rewrite Ha, <- app_assoc. split; [|reflexivity].
      apply descent_group; simpl; rewrite ?El; auto.
      destruct (nonlink_cases q El); congruence.
Qed.

Lemma descent_shape pages groups d :
  LeftmostDescent pages groups d ->
  isDocument d = true /\ Forall (fun g => isGroup g = true) groups.
Proof.
  induction 1 as [pages d Hf Hd|pages g groups d Hf Hg _ [IHd IHg]];
    split; auto.
Qed.

Lemma flattenPages_firstNonLink pages q :
  firstNonLink pages = Some q ->
  exists rest,
    flattenPages pages
    = (if isDocument q then [q] else []) ++ flattenPages (pagesOf q) ++ rest.
Proof.
  induction pages as [|x r IH]; simpl firstNonLink; [discriminate|].
  rewrite flattenPages_cons. destruct (isLink x) eqn:E.
  - exact IH.
  - intros [= ->]. eexists. reflexivity.
Qed.

Lemma descent_head_flatten pages groups d :
  LeftmostDescent pages groups d -> head (flattenPages pages) = Some d.
Proof.
  induction 1 as [pages d Hf Hd|pages g groups d Hf Hg _ IH];
    destruct (flattenPages_firstNonLink _ _ Hf) as [rest ->].
  - rewrite Hd. reflexivity.
  - rewrite (isGroup_not_document _ Hg). simpl.
    destruct (flattenPages (pagesOf g)); [discriminate|exact IH].
Qed.

Lemma flattenPages_documents pages :
  Forall (fun d => isDocument d = true) (flattenPages pages).
Proof.
  induction pages as [|q rest IHq IHrest] using forest_ind; [constructor|].
  rewrite flattenPages_cons. destruct (isLink q); [assumption|].
  repeat apply Forall_app_2; try assumption.
  destruct (isDocument q) eqn:E; repeat constructor. assumption.
Qed.

(** *** Where a resolved page sits in the tree *)

Lemma positions_here pages anc q :
  q ∈ pages -> (anc, q) ∈ positions pages anc.
Proof.
  induction 1 as [q rest|q x rest _ IH]; rewrite positions_cons.
  - apply list_elem_of_here.
  - apply list_elem_of_further, elem_of_app. right. exact IH.
Qed.

Lemma positions_below pages anc q x :
  q ∈ pages -> x ∈ positions (pagesOf q) (anc ++ [q]) ->
  x ∈ positions pages anc.
Proof.
  induction 1 as [q rest|q y rest _ IH]; rewrite positions_cons; intros Hx.
  - apply list_elem_of_further, elem_of_app. left. exact Hx.
  - apply list_elem_of_further, elem_of_app. right. auto.
Qed.

Lemma descent_position pages groups d :
  LeftmostDescent pages groups d ->
  forall anc, (anc ++ groups, d) ∈ positions pages anc.
Proof.
  induction 1 as [pages d Hf Hd|pages g groups d Hf Hg _ IH]; intros anc;
    destruct (firstNonLink_Some _ _ Hf) as [_ Hin].
  - rewrite app_nil_r. by apply positions_here.
  - apply (positions_below _ _ g); [assumption|].
    specialize (IH (anc ++ [g])). rewrite <- app_assoc in IH. exact IH.
Qed.

Lemma located_first pages anc r :
  resolveFirstDocument pages anc = Some r -> Located pages anc r.
Proof.
  intros H. destruct (descent_resolveFirstDocument _ _ _ H) as (groups & Hd & Ha).
  destruct (descent_shape _ _ _ Hd) as [Hdoc Hg].
  split; [assumption|]. split.
  - exists groups. split; [assumption|].
    eapply Forall_impl; [exact Hg|]. intros g. apply isGroup_not_link.
  - rewrite Ha. by apply descent_position.
Qed.

Lemma located_rest q rest anc r :
  Located rest anc r -> Located (q :: rest) anc r.
Proof.
  intros (Hd & Hc & Hp). repeat split; try assumption.
  rewrite positions_cons. apply list_elem_of_further, elem_of_app. by right.
Qed.

Lemma located_child q rest anc r :
  isLink q = false ->
  Located (pagesOf q) (anc ++ [q]) r -> Located (q :: rest) anc r.
Proof.
  intros Hq (Hd & (chain & Ha & Hc) & Hp). split; [assumption|]. split.
  - exists (q :: chain). rewrite Ha, <- app_assoc. split; [reflexivity|].
    constructor; assumption.
  - rewrite positions_cons. apply list_elem_of_further, elem_of_app. by left.
Qed.

Lemma located_here q rest anc r :
  isLink q = false ->
  resolvePageDocument q anc = Some r -> Located (q :: rest) anc r.
Proof.
  intros Hq. rewrite resolvePageDocument_nonlink by assumption.
  destruct (isDocument q) eqn:Ed.
  - intros [= <-]. split; [assumption|]. split.
    + exists []. rewrite app_nil_r. split; [reflexivity|constructor].
    + rewrite positions_cons. apply list_elem_of_here.
  - intros H. apply located_child; [assumption|]. by apply located_first.
Qed.

Lemma located_id pageIdArg pages :
  forall anc r,
    iteratePagesId pageIdArg pages anc = Some r -> Located pages anc r.
Proof.
  induction pages as [|q rest IHq IHrest] using forest_ind; intros anc r;
    [discriminate|].
  rewrite iteratePagesId_cons. destruct (isLink q) eqn:El.
  { intros H. apply located_rest. auto. }
  destruct (String.eqb (pageId q) pageIdArg).
  { by apply located_here. }
  destruct (iteratePagesId pageIdArg (pagesOf q) (anc ++ [q])) as [r'|] eqn:E.
  - intros [= <-]. apply located_child; auto.
  - intros H. apply located_rest. auto.
Qed.

Lemma located_path pagePath pages :
  forall anc r,
    iteratePagesPath pagePath pages anc = Some r -> Located pages anc r.
Proof.
  induction pages as [|q rest IHq IHrest] using forest_ind; intros anc r;
    [discriminate|].
  rewrite iteratePagesPath_cons. destruct (isLink q) eqn:El.
  { intros H. apply located_rest. auto. }
  destruct (negb (String.eqb (pagePathOf q) pagePath)).
  2: { by apply located_here. }
  destruct (iteratePagesPath pagePath (pagesOf q) (anc ++ [q])) as [r'|] eqn:E.
  - intros [= <-]. apply located_child; auto.
  - intros H. apply located_rest. auto.
Qed.

Lemma resolvePagePath_located rootPages pagePath r :
  resolvePagePath rootPages pagePath = Some r -> Located rootPages [] r.
Proof.
  unfold resolvePagePath. destruct pagePath as [|c pagePath].
  - destruct (resolveFirstDocument rootPages []) as [r'|] eqn:E; [|discriminate].
    intros [= <-]. by apply located_first.
  - apply located_path.
Qed.

Lemma resolvePageId_located rootPages pageIdArg r :
  resolvePageId rootPages pageIdArg = Some r -> Located rootPages [] r.
Proof. apply located_id. Qed.

(** With unique ids, a node sits at one place of the tree only. *)
Lemma NoDup_fmap_unique {A B : Type} (f : A -> B) (l : list A) x y :
  NoDup (f <$> l) -> x ∈ l -> y ∈ l -> f x = f y -> x = y.
Proof.
  induction l as [|a l IH]; intros Hnd Hx Hy Hf.
  - by apply elem_of_nil in Hx.
  - rewrite fmap_cons in Hnd. apply NoDup_cons in Hnd as [Hna Hnd].
    apply elem_of_cons in Hx as [->|Hx]; apply elem_of_cons in Hy as [->|Hy];
      auto.
    + exfalso. apply Hna. rewrite Hf. apply list_elem_of_fmap. eauto.
    + exfalso. apply Hna. rewrite <- Hf. apply list_elem_of_fmap. eauto.
Qed.

Lemma position_unique pages anc c1 c2 d :
  uniqueIds pages ->
  (c1, d) ∈ positions pages anc -> (c2, d) ∈ positions pages anc -> c1 = c2.
Proof.
  unfold uniqueIds. rewrite <- (positions_snd pages anc), <- list_fmap_compose.
  intros Hnd H1 H2.
  pose proof (NoDup_fmap_unique _ _ _ _ Hnd H1 H2 eq_refl) as E.
  congruence.
Qed.

(** *** The flattened sequence and [findIndex] *)

Lemma flattenPages_sublist pages : flattenPages pages `sublist_of` allPages pages.
Proof.
  induction pages as [|q rest IHq IHrest] using forest_ind; [constructor|].
  rewrite flattenPages_cons, allPages_cons. destruct (isLink q).
  - apply sublist_cons, sublist_inserts_l, IHrest.
  - destruct (isDocument q); simpl.
    + apply sublist_skip, sublist_app; assumption.
    + apply sublist_cons, sublist_app; assumption.
Qed.

Lemma uniqueIds_documents pages :
  uniqueIds pages -> NoDup (pageId <$> flattenPages pages).
Proof.
  intros H. eapply sublist_NoDup; [exact H|].
  apply fmap_sublist, flattenPages_sublist.
Qed.

Lemma findIndexFrom_unique (l : list RevisionPage) :
  forall n k x,
    NoDup (pageId <$> l) -> l !! n = Some x ->
    findIndexFrom (fun p => String.eqb (pageId p) (pageId x)) l k
    = (k + Z.of_nat n)%Z.
Proof.
  induction l as [|a l IH]; intros n k x Hnd Hn; [discriminate|].
  rewrite fmap_cons in Hnd. apply NoDup_cons in Hnd as [Hna Hnd].
  destruct n as [|n]; simpl in *.
  - injection Hn as ->. rewrite String.eqb_refl. lia.
  - destruct (String.eqb (pageId a) (pageId x)) eqn:E.
    + apply String.eqb_eq in E. exfalso. apply Hna. rewrite E.
      apply list_elem_of_fmap. exists x. split; [reflexivity|].
      by eapply list_elem_of_lookup_2.
    + rewrite (IH n (k + 1)%Z x Hnd Hn). lia.
Qed.

Lemma arrayGet_succ {A : Type} (l : list A) (n : nat) :
  arrayGet l (Z.of_nat n + 1)%Z = l !! S n.
Proof.
  unfold arrayGet. destruct (Z.ltb_spec (Z.of_nat n + 1) 0); [lia|].
  f_equal. lia.
Qed.

Lemma arrayGet_pred {A : Type} (l : list A) (n : nat) :
  arrayGet l (Z.of_nat n - 1)%Z
  = match n with O => None | S m => l !! m end.
Proof.
  unfold arrayGet. destruct n as [|m].
  - reflexivity.
  - destruct (Z.ltb_spec (Z.of_nat (S m) - 1) 0); [lia|]. f_equal. lia.
Qed.

Lemma resolvePrevNextPages_at rootPages n d :
  NoDup (pageId <$> flattenPages rootPages) ->
  flattenPages rootPages !! n = Some d ->
  resolvePrevNextPages rootPages d
  = mkPrevNext (match n with O => None | S m => flattenPages rootPages !! m end)
               (flattenPages rootPages !! S n).
Proof.
  intros Hnd Hn. unfold resolvePrevNextPages, findIndex.
  rewrite (findIndexFrom_unique _ n 0%Z d Hnd Hn).
  destruct (Z.eqb_spec (0 + Z.of_nat n) (-1)); [lia|].
  rewrite Z.add_0_l, arrayGet_succ, arrayGet_pred. reflexivity.
Qed.

(** * The claims about the page resolvers *)

(** C1, as stated, fails: with an empty group in front of a document the
    empty path resolves to nothing although the flattened sequence is not
    empty. *)
Lemma resolvePagePath_empty_not_iff_flat_empty :
  ~ (resolvePagePath emptyGroupFirst "" = None
     <-> flattenPages emptyGroupFirst = []).
Proof.
  intros [H _]. specialize (H eq_refl). discriminate H.
Qed.

(** C1 (amended): whenever [resolvePagePath T ""] returns a result, its page
    is the first element of the flattened document sequence of [T]; it
    returns a result exactly when the leftmost descent from the root ends in
    a document, and in particular returns not-found when the flattened
    sequence is empty. *)
Theorem resolvePagePath_empty_first_document (T : list RevisionPage) :
  (forall r, resolvePagePath T "" = Some r ->
             head (flattenPages T) = Some (page r))
  /\ (flattenPages T = [] -> resolvePagePath T "" = None)
  /\ (resolvePagePath T "" = None
      <-> ~ exists groups d, LeftmostDescent T groups d).
Proof.
  assert (E : resolvePagePath T "" = resolveFirstDocument T []).
  { unfold resolvePagePath. destruct (resolveFirstDocument T []); reflexivity. }
  rewrite E.
  assert (H1 : forall r, resolveFirstDocument T [] = Some r ->
                         head (flattenPages T) = Some (page r)).
  { intros r H. destruct (descent_resolveFirstDocument _ _ _ H) as (g & Hd & _).
    by eapply descent_head_flatten. }
  split; [exact H1|]. split.
  - intros Hnil. destruct (resolveFirstDocument T []) as [r|] eqn:Er;
      [|reflexivity].
    specialize (H1 r eq_refl). rewrite Hnil in H1. discriminate.
  - split.
    + intros Hn (groups & d & Hd).
      rewrite (resolveFirstDocument_descent _ _ _ Hd) in Hn. discriminate.
    + intros Hn. destruct (resolveFirstDocument T []) as [r|] eqn:Er;
        [|reflexivity].
      destruct (descent_resolveFirstDocument _ _ _ Er) as (g & Hd & _).
      exfalso. apply Hn. eauto.
Qed.

(** C4: in a tree whose document ids are pairwise distinct (the data-model
    invariant), the neighbour relation is consistent in both directions: if
    the next page of [D] is [E] then the previous page of [E] is [D], and if
    the previous page of [D] is [E] then the next page of [E] is [D]. *)
Theorem resolvePrevNextPages_consistent (T : list RevisionPage)
  (D E : RevisionPage) :
  NoDup (pageId <$> flattenPages T) ->
  D ∈ flattenPages T ->
  (next (resolvePrevNextPages T D) = Some E ->
   previous (resolvePrevNextPages T E) = Some D)
  /\ (previous (resolvePrevNextPages T D) = Some E ->
      next (resolvePrevNextPages T E) = Some D).
Proof.
  intros Hnd Hin. apply list_elem_of_lookup_1 in Hin as [n Hn].
  rewrite (resolvePrevNextPages_at T n D Hnd Hn). simpl. split.
  - intros HE. rewrite (resolvePrevNextPages_at T (S n) E Hnd HE). exact Hn.
  - destruct n as [|m]; [discriminate|]. intros HE.
    rewrite (resolvePrevNextPages_at T m E Hnd HE). exact Hn.
Qed.

(** C5: in a tree with unique ids, when [resolvePageId T (id D)] and
    [resolvePagePath T (path D)] both resolve to the document [D], the two
    ancestor chains are the same. *)
Theorem resolvePageId_resolvePagePath_same_ancestors (T : list RevisionPage)
  (D : RevisionPage) (byId byPath : Resolved) :
  uniqueIds T ->
  resolvePageId T (pageId D) = Some byId -> page byId = D ->
  resolvePagePath T (pagePathOf D) = Some byPath -> page byPath = D ->
  ancestors byId = ancestors byPath.
Proof.
  intros Hu Hi Ei Hp Ep.
  apply resolvePageId_located in Hi as (_ & _ & Hi).
  apply resolvePagePath_located in Hp as (_ & _ & Hp).
  rewrite Ei in Hi. rewrite Ep in Hp.
  exact (position_unique T [] _ _ D Hu Hi Hp).
Qed.

(** C6, as stated, fails: a matched group that has a document descendant
    resolves to nothing when its first child is a group without children. *)
Lemma resolvePageDocument_dead_end_group :
  flattenPages (pagesOf deadEndGroup) = [Document "a" "intro" "Intro" []]
  /\ resolvePageDocument deadEndGroup [] = None.
Proof. split; reflexivity. Qed.

(** C6 (amended): for a matched group, [resolvePageDocument] returns exactly
    the document reached by the leftmost descent into the group (its first
    child that is not a link, and so on through groups); when there is one
    it is the first document among the descendants of the group in reading
    order, and the ancestors are the given ones followed by the group and by
    each group gone through.  For a link, and for a group without any
    document descendant, it returns not-found. *)
Theorem resolvePageDocument_group_or_link (pg : RevisionPage)
  (anc : list RevisionPage) :
  (isGroup pg = true ->
   forall r,
     (resolvePageDocument pg anc = Some r
      <-> exists groups,
            LeftmostDescent (pagesOf pg) groups (page r)
            /\ ancestors r = anc ++ pg :: groups)
     /\ (resolvePageDocument pg anc = Some r ->
         isDocument (page r) = true
         /\ head (flattenPages (pagesOf pg)) = Some (page r)))
  /\ (isLink pg = true -> resolvePageDocument pg anc = None)
  /\ (isGroup pg = true -> flattenPages (pagesOf pg) = [] ->
      resolvePageDocument pg anc = None).
Proof.
  assert (Hiff : isGroup pg = true -> forall r,
             resolvePageDocument pg anc = Some r
             <-> exists groups,
                   LeftmostDescent (pagesOf pg) groups (page r)
                   /\ ancestors r = anc ++ pg :: groups).
  { intros Hg r.
    rewrite resolvePageDocument_nonlink by (by apply isGroup_not_link).
    rewrite (isGroup_not_document _ Hg). split.
    - intros H. destruct (descent_resolveFirstDocument _ _ _ H) as (gs & Hd & Ha).
      exists gs. split; [assumption|]. rewrite Ha, <- app_assoc. reflexivity.
    - intros (gs & Hd & Ha).
      rewrite (resolveFirstDocument_descent _ _ _ Hd), <- app_assoc.
      destruct r as [p a]. simpl in *. rewrite Ha. reflexivity. }
  assert (Hdoc : isGroup pg = true -> forall r,
             resolvePageDocument pg anc = Some r ->
             isDocument (page r) = true
             /\ head (flattenPages (pagesOf pg)) = Some (page r)).
  { intros Hg r H. apply (Hiff Hg) in H as (gs & Hd & _). split.
    - apply (descent_shape _ _ _ Hd).
    - by eapply descent_head_flatten. }
  split; [|split].
  - intros Hg r. split; [by apply Hiff|by apply Hdoc].
  - destruct pg; simpl; congruence.
  - intros Hg Hnil.
    destruct (resolvePageDocument pg anc) as [r|] eqn:E; [|reflexivity].
    destruct (Hdoc Hg r eq_refl) as [_ Hh]. rewrite Hnil in Hh. discriminate.
Qed.

(** C9: a link is never the page returned by [resolvePagePath],
    [resolvePageId] or [resolvePageDocument], never one of the returned
    ancestors (for [resolvePageDocument]: when none of the ancestors it is
    given is a link), and never an element of the flattened sequence, hence
    never a neighbour returned by [resolvePrevNextPages]. *)
Theorem link_never_resolved :
  (forall T pagePath r,
      resolvePagePath T pagePath = Some r ->
      isLink (page r) = false
      /\ Forall (fun a => isLink a = false) (ancestors r))
  /\ (forall T pageIdArg r,
         resolvePageId T pageIdArg = Some r ->
         isLink (page r) = false
         /\ Forall (fun a => isLink a = false) (ancestors r))
  /\ (forall pg anc r,
         resolvePageDocument pg anc = Some r ->
         isLink (page r) = false
         /\ (Forall (fun a => isLink a = false) anc ->
             Forall (fun a => isLink a = false) (ancestors r)))
  /\ (forall T, Forall (fun d => isLink d = false) (flattenPages T))
  /\ (forall T pg d,
         previous (resolvePrevNextPages T pg) = Some d
         \/ next (resolvePrevNextPages T pg) = Some d ->
         isLink d = false).
Proof.
  assert (Hloc : forall T anc r, Located T anc r ->
             isLink (page r) = false
             /\ (Forall (fun a => isLink a = false) anc ->
                 Forall (fun a => isLink a = false) (ancestors r))).
  { intros T anc r (Hd & (chain & -> & Hc) & _). split.
    - by apply isDocument_not_link.
    - intros Ha. by apply Forall_app_2. }
  assert (Hflat : forall T, Forall (fun d => isLink d = false) (flattenPages T)).
  { intros T. eapply Forall_impl; [apply flattenPages_documents|].
    intros d. apply isDocument_not_link. }
  repeat split.
  - apply resolvePagePath_located, Hloc in H. apply H.
  - apply resolvePagePath_located, Hloc in H. apply H. constructor.
  - apply resolvePageId_located, Hloc in H. apply H.
  - apply resolvePageId_located, Hloc in H. apply H. constructor.
  - destruct (isLink pg) eqn:El; [destruct pg; discriminate|].
    apply (located_here pg [] anc r El), Hloc in H. apply H.
  - destruct (isLink pg) eqn:El; [destruct pg; discriminate|].
    apply (located_here pg [] anc r El), Hloc in H. apply H.
  - apply Hflat.
  - intros T pg d H. unfold resolvePrevNextPages in H.
    destruct (_ =? -1)%Z; simpl in H; [destruct H; discriminate|].
    assert (Hget : forall i, arrayGet (flattenPages T) i = Some d ->
                             isLink d = false).
    { intros i. unfold arrayGet. destruct (i <? 0)%Z; [discriminate|].
      intros Hi. exact (Forall_lookup_1 _ _ _ _ (Hflat T) Hi). }
    destruct H as [H|H]; eapply Hget; exact H.
Qed.

(** ** The invariant on ids cannot be dropped *)

(** With two documents of one id, [findIndex] finds the first of them for
    both: the second is its own next page, and has no previous page. *)
Example resolvePrevNextPages_duplicate_ids :
  twinY ∈ flattenPages twinTree
  /\ next (resolvePrevNextPages twinTree twinY) = Some twinY
  /\ previous (resolvePrevNextPages twinTree twinY) = None.
Proof.
  split; [|split; reflexivity]. apply list_elem_of_further, list_elem_of_here.
Qed.

(** With a dead-end group that has the id of a document placed twice, the
    search by id and the search by path find the document at different
    places. *)
Example resolvers_duplicate_ids :
  resolvePageId shadowedTree (pageId docD)
  = Some (mkResolved docD [groupSecond])
  /\ resolvePagePath shadowedTree (pagePathOf docD)
     = Some (mkResolved docD [groupFirst]).
Proof. split; reflexivity. Qed.

(** ** A tree with links *)

Example resolvePagePath_linked_empty :
  resolvePagePath linkedTree "" = Some (mkResolved docOuter [groupLinked]).
Proof. reflexivity. Qed.

Example resolvePageId_linked_link_id : resolvePageId linkedTree "l1" = None.
Proof. reflexivity. Qed.

Example flattenPages_linked : flattenPages linkedTree = [docOuter; docInner].
Proof. reflexivity. Qed.

(** ** The scenario of the specification *)

Example resolvePagePath_guides_empty :
  resolvePagePath guidesTree "" = Some (mkResolved docA [groupGuides]).
Proof. reflexivity. Qed.

Example resolvePagePath_guides_deep :
  resolvePagePath guidesTree "intro/deep"
  = Some (mkResolved docB [groupGuides; groupSub]).
Proof. reflexivity. Qed.

Example resolvePageId_guides_b :
  resolvePageId guidesTree "b" = Some (mkResolved docB [groupGuides; groupSub]).
Proof. reflexivity. Qed.

Example resolvePrevNextPages_guides_a :
  resolvePrevNextPages guidesTree docA = mkPrevNext None (Some docB).
Proof. reflexivity. Qed.


Lemma guidesTree_uniqueIds : uniqueIds guidesTree.
Proof.
  unfold uniqueIds. apply (bool_decide_unpack _). vm_compute. exact I.
Qed.

Lemma resolvePagePath_empty_first_document_witness :
  head (flattenPages guidesTree) = Some docA.
Proof.
  exact (proj1 (resolvePagePath_empty_first_document guidesTree)
           (mkResolved docA [groupGuides]) eq_refl).
Defined.

Lemma resolvePrevNextPages_consistent_witness :
  previous (resolvePrevNextPages guidesTree docB) = Some docA.
Proof.
  apply (proj1 (resolvePrevNextPages_consistent guidesTree docA docB
                  (uniqueIds_documents _ guidesTree_uniqueIds)
                  (list_elem_of_here _ _))).
  reflexivity.
Defined.

Lemma resolvePageId_resolvePagePath_same_ancestors_witness :
  option_map ancestors (resolvePageId guidesTree "b")
  = option_map ancestors (resolvePagePath guidesTree "intro/deep").
Proof.
  change (Some (ancestors (mkResolved docB [groupGuides; groupSub]))
          = Some (ancestors (mkResolved docB [groupGuides; groupSub]))).
  apply (f_equal Some).
  apply (resolvePageId_resolvePagePath_same_ancestors guidesTree docB
           (mkResolved docB [groupGuides; groupSub])
           (mkResolved docB [groupGuides; groupSub])
           guidesTree_uniqueIds);
    reflexivity.
Defined.

Lemma resolvePageDocument_group_or_link_witness :
  isDocument docB = true /\ head (flattenPages (pagesOf groupSub)) = Some docB.
Proof.
  apply (proj2 (proj1 (resolvePageDocument_group_or_link groupSub [groupGuides])
                  eq_refl (mkResolved docB [groupGuides; groupSub]))).
  reflexivity.
Defined.

Lemma link_never_resolved_witness :
  (isLink docInner = false
   /\ Forall (fun a => isLink a = false) [groupLinked; docOuter])
  /\ (isLink docOuter = false
      /\ Forall (fun a => isLink a = false) [groupLinked])
  /\ Forall (fun d => isLink d = false) (flattenPages linkedTree)
  /\ isLink docInner = false.
Proof.
  split; [|split; [|split]].
  - apply (proj1 link_never_resolved linkedTree "g/d/e"
             (mkResolved docInner [groupLinked; docOuter])).
    reflexivity.
  - apply (proj1 (proj2 link_never_resolved) linkedTree "g"
             (mkResolved docOuter [groupLinked])).
    reflexivity.
  - apply (proj1 (proj2 (proj2 (proj2 link_never_resolved))) linkedTree).
  - apply (proj2 (proj2 (proj2 (proj2 link_never_resolved)))
             linkedTree docOuter docInner).
    right. reflexivity.
Defined.

(** * Properties of search and answer aggregation *)

Import Search.

(** ** Traces *)

Lemma Serialized_app t1 t2 :
  Serialized t1 -> Serialized t2 -> Serialized (t1 ++ t2).
Proof. induction 1; simpl; [auto|constructor; auto]. Qed.

Lemma Serialized_in_flight t :
  Serialized t -> maxInFlight 0 t <= 1 /\ inFlightAfter 0 t = 0.
Proof.
  induction 1 as [|c t _ [IHm IHa]]; simpl; [lia|].
  split; [lia|assumption].
Qed.

Lemma fetchedSpaces_app t1 t2 :
  fetchedSpaces (t1 ++ t2) = fetchedSpaces t1 ++ fetchedSpaces t2.
Proof.
  induction t1 as [|e t1 IH]; [reflexivity|].
  destruct e as [[| |s]|c]; simpl; rewrite IH; reflexivity.
Qed.

(** ** Filling the cache *)

Section AnswerFacts.
Context (collab : Collaborators).

Lemma fetchSpace_known spaceId (spaceData : SpaceData) :
  is_Some (spaceData !! spaceId) ->
  fetchSpace collab spaceId spaceData = (Fulfilled tt, spaceData, []).
Proof.
  intros H. unfold fetchSpace, bind, spaceDataHas.
  rewrite bool_decide_eq_true_2 by assumption. reflexivity.
Qed.

Lemma fetchSpace_unknown spaceId (spaceData : SpaceData) :
  spaceData !! spaceId = None ->
  fetchSpace collab spaceId spaceData
  = match api_getSpaceContentData collab spaceId with
    | Some pages =>
        (Fulfilled tt, <[spaceId := pages]> spaceData,
         [Started (CallGetSpaceContentData spaceId);
          Settled (CallGetSpaceContentData spaceId)])
    | None =>
        (Rejected, spaceData,
         [Started (CallGetSpaceContentData spaceId);
          Settled (CallGetSpaceContentData spaceId)])
    end.
Proof.
  intros H. unfold fetchSpace, bind, spaceDataHas, await, spaceDataSet.
  rewrite bool_decide_eq_false_2 by (rewrite H; apply is_Some_None).
  destruct (api_getSpaceContentData collab spaceId); reflexivity.
Qed.

Lemma pMapSerial_run spaces :
  forall before o after t,
    pMapSerial spaces (fetchSpace collab) before = (o, after, t) ->
    FetchRun collab spaces before (isFulfilled o) after t.
Proof.
  induction spaces as [|x rest IH]; intros before o after t.
  - intros [= <- <- <-]. split; simpl.
    + constructor.
    + constructor.
    + intros s H. by apply elem_of_nil in H.
    + auto.
    + auto.
    + intros _. split; intros s H; by apply elem_of_nil in H.
    + discriminate.
  - simpl. unfold bind at 1.
    destruct (before !! x) as [known|] eqn:Ex.
    + rewrite fetchSpace_known by (rewrite Ex; eauto).
      destruct (pMapSerial rest (fetchSpace collab) before)
        as [[o' after'] t'] eqn:Er.
      intros [= <- <- <-]. destruct (IH _ _ _ _ Er) as [A B C D E F G].
      split; simpl; auto.
      * intros s H. destruct (C s H). split; [auto|by apply list_elem_of_further].
      * intros Ho. destruct (F Ho) as [F1 F2]. split; [|exact F2].
        intros s [->|H]%elem_of_cons; [|auto].
        rewrite (D _ _ Ex). eauto.
      * intros Ho. destruct (G Ho) as (s & Hs & Hn). exists s.
        split; [by apply list_elem_of_further|assumption].
    + rewrite fetchSpace_unknown by assumption.
      destruct (api_getSpaceContentData collab x) as [pages|] eqn:Ea.
      * destruct (pMapSerial rest (fetchSpace collab) (<[x:=pages]> before))
          as [[o' after'] t'] eqn:Er.
        intros [= <- <- <-]. destruct (IH _ _ _ _ Er) as [A B C D E F G].
        assert (Hx : after' !! x = Some pages)
          by (apply D, lookup_insert_eq).
        split; simpl.
        -- by constructor.
        -- apply NoDup_cons. split; [|assumption].
           intros H. destruct (C _ H) as [Hn _].
           rewrite lookup_insert_eq in Hn. discriminate.
        -- intros s [->|H]%elem_of_cons.
           ++ split; [assumption|apply list_elem_of_here].
           ++ destruct (C s H) as [Hn Hin].
              split; [|by apply list_elem_of_further].
              destruct (decide (x = s)) as [->|Hne].
              ** rewrite lookup_insert_eq in Hn. discriminate.
              ** by rewrite lookup_insert_ne in Hn.
        -- intros s ps Hs. apply D. rewrite lookup_insert_ne; [assumption|].
           intros ->. congruence.
        -- intros s ps Hs. destruct (E s ps Hs) as [Hb|[Hf Hapi]].
           ++ destruct (decide (x = s)) as [->|Hne].
              ** rewrite lookup_insert_eq in Hb. injection Hb as <-.
                 right. split; [apply list_elem_of_here|assumption].
              ** rewrite lookup_insert_ne in Hb by assumption. by left.
           ++ right. split; [by apply list_elem_of_further|assumption].
        -- intros Ho. destruct (F Ho) as [F1 F2]. split.
           ++ intros s [->|H]%elem_of_cons; [eauto|auto].
           ++ intros s [->|H]%elem_of_cons; [eauto|auto].
        -- intros Ho. destruct (G Ho) as (s & Hs & Hn). exists s.
           split; [by apply list_elem_of_further|assumption].
      * intros [= <- <- <-]. split; simpl.
        -- repeat constructor.
        -- apply NoDup_singleton.
        -- intros s ->%list_elem_of_singleton.
           split; [assumption|apply list_elem_of_here].
        -- auto.
        -- auto.
        -- discriminate.
        -- intros _. exists x. split; [apply list_elem_of_here|assumption].
Qed.

Lemma FetchRun_equiv spaces spaces' before completed after t :
  (forall s, s ∈ spaces <-> s ∈ spaces') ->
  FetchRun collab spaces before completed after t ->
  FetchRun collab spaces' before completed after t.
Proof.
  intros Heq [A B C D E F G]. split; auto.
  - intros s H. destruct (C s H). split; [auto|by apply Heq].
  - intros Hc. destruct (F Hc) as [F1 F2]. split; [|exact F2].
    intros s H. by apply F1, Heq.
  - intros Hc. destruct (G Hc) as (s & Hs & Hn). exists s.
    split; [by apply Heq|assumption].
Qed.

Lemma FetchRun_seq spaces1 spaces2 before mid after completed t1 t2 :
  FetchRun collab spaces1 before true mid t1 ->
  FetchRun collab spaces2 mid completed after t2 ->
  FetchRun collab (spaces1 ++ spaces2) before completed after (t1 ++ t2).
Proof.
  intros [A1 B1 C1 D1 E1 F1 G1] [A2 B2 C2 D2 E2 F2 G2].
  destruct (F1 eq_refl) as [F1a F1b].
  split; rewrite ?fetchedSpaces_app.
  - by apply Serialized_app.
  - apply NoDup_app. repeat split; try assumption.
    intros s H1 H2. destruct (F1b s H1) as [ps Hps].
    destruct (C2 s H2) as [Hn _]. congruence.
  - intros s [H|H]%elem_of_app.
    + destruct (C1 s H). split; [assumption|]. apply elem_of_app. by left.
    + destruct (C2 s H) as [Hn Hin]. split; [|apply elem_of_app; by right].
      destruct (before !! s) as [ps|] eqn:Eb; [|reflexivity].
      rewrite (D1 _ _ Eb) in Hn. discriminate.
  - intros s ps H. by apply D2, D1.
  - intros s ps H. destruct (E2 s ps H) as [Hm|[Hf Hapi]].
    + destruct (E1 s ps Hm) as [Hb|[Hf Hapi]]; [by left|].
      right. split; [|assumption]. apply elem_of_app. by left.
    + right. split; [|assumption]. apply elem_of_app. by right.
  - intros Hc. destruct (F2 Hc) as [F2a F2b]. split.
    + intros s [H|H]%elem_of_app; [|auto].
      destruct (F1a s H) as [ps Hps]. rewrite (D2 _ _ Hps). eauto.
    + intros s [H|H]%elem_of_app; [|auto].
      destruct (F1b s H) as [ps Hps]. rewrite (D2 _ _ Hps). eauto.
  - intros Hc. destruct (G2 Hc) as (s & Hs & Hn). exists s.
    split; [|assumption]. apply elem_of_app. by right.
Qed.

Lemma FetchRun_stop spaces1 spaces2 before after t :
  FetchRun collab spaces1 before false after t ->
  FetchRun collab (spaces1 ++ spaces2) before false after t.
Proof.
  intros [A B C D E F G]. split; auto.
  - intros s H. destruct (C s H). split; [assumption|].
    apply elem_of_app. by left.
  - discriminate.
  - intros Hc. destruct (G Hc) as (s & Hs & Hn). exists s.
    split; [|assumption]. apply elem_of_app. by left.
Qed.

(** ** [transformAnswer] and the stream *)

Lemma setAdd_elem set x s : s ∈ setAdd set x <-> s ∈ set \/ s = x.
Proof.
  unfold setAdd. case_bool_decide as H.
  - split; [auto|]. intros [?| ->]; assumption.
  - rewrite elem_of_app, list_elem_of_singleton. reflexivity.
Qed.

Lemma referencedSpaces_elem answer s :
  s ∈ referencedSpaces answer
  <-> s ∈ omap sourceSpace (answer_sources answer).
Proof.
  unfold referencedSpaces.
  assert (H : forall l acc,
             s ∈ fold_left
                   (fun set source =>
                      match source with
                      | SourcePage space _ => setAdd set space
                      | SourceOther _ => set
                      end) l acc
             <-> s ∈ acc \/ s ∈ omap sourceSpace l).
  { induction l as [|x l IH]; intros acc; simpl.
    - rewrite elem_of_nil. tauto.
    - rewrite IH. destruct x as [sp pg|k]; simpl.
      + rewrite setAdd_elem, elem_of_cons. intuition.
      + reflexivity. }
  rewrite H, elem_of_nil. tauto.
Qed.

Lemma transformAnswer_eq answer (spaceData : SpaceData) :
  transformAnswer collab answer spaceData
  = match pMapSerial (referencedSpaces answer) (fetchSpace collab) spaceData with
    | (Fulfilled _, spaceData', t) =>
        (Fulfilled
           (mkAnswerResult (renderBody (answer_answer answer))
              (answer_followupQuestions answer)
              (filterOutNullable
                 (map (resolveSource collab spaceData')
                    (answer_sources answer)))),
         spaceData', t)
    | (Rejected, spaceData', t) => (Rejected, spaceData', t)
    end.
Proof.
  unfold transformAnswer, bind, spaceDataRead, ret.
  destruct (pMapSerial _ _ _) as [[[[]|] sd'] t]; simpl;
    rewrite ?app_nil_r; reflexivity.
Qed.

Lemma transformAnswer_run answer before o after t :
  transformAnswer collab answer before = (o, after, t) ->
  FetchRun collab (omap sourceSpace (answer_sources answer))
    before (isFulfilled o) after t.
Proof.
  rewrite transformAnswer_eq.
  destruct (pMapSerial _ _ _) as [[o' sd'] t'] eqn:E.
  apply pMapSerial_run in E.
  apply (FetchRun_equiv _ _ _ _ _ _ (referencedSpaces_elem answer)) in E.
  destruct o' as [[]|]; intros [= <- <- <-]; exact E.
Qed.

Lemma consumeStream_run stream :
  forall before yielded o after t,
    consumeStream collab stream before = (yielded, o, after, t) ->
    FetchRun collab (concat (map chunkSpaces stream))
      before (isFulfilled o) after t.
Proof.
  induction stream as [|[chunk|] rest IH]; intros before yielded o after t;
    simpl.
  - intros [= <- <- <- <-].
    apply (pMapSerial_run [] before (Fulfilled tt) before []). reflexivity.
  - destruct (transformAnswer collab (chunk_answer chunk) before)
      as [[o1 mid] t1] eqn:E1.
    apply transformAnswer_run in E1. destruct o1 as [encoded|].
    + destruct (consumeStream collab rest mid) as [[[ys o2] sd2] t2] eqn:E2.
      intros [= <- <- <- <-]. eapply FetchRun_seq; [exact E1|eauto].
    + intros [= <- <- <- <-]. by apply FetchRun_stop.
  - apply IH.
Qed.

Lemma countFetches_absent s t :
  s ∉ fetchedSpaces t -> countFetches s t = 0.
Proof.
  induction t as [|[[| |x]|c] t IH]; simpl; auto.
  intros Hn. destruct (String.eqb_spec x s) as [->|Hne].
  - exfalso. apply Hn, list_elem_of_here.
  - rewrite IH; [reflexivity|]. intros H. apply Hn.
    by apply list_elem_of_further.
Qed.

Lemma countFetches_once s t :
  NoDup (fetchedSpaces t) -> s ∈ fetchedSpaces t -> countFetches s t = 1.
Proof.
  induction t as [|[[| |x]|c] t IH]; simpl; auto.
  - intros _ H. by apply elem_of_nil in H.
  - intros [Hx Hnd]%NoDup_cons Hin.
    destruct (String.eqb_spec x s) as [->|Hne].
    + by rewrite countFetches_absent.
    + apply elem_of_cons in Hin as [->|Hin]; [congruence|]. by rewrite IH.
Qed.

Lemma countFetches_fetched s t :
  countFetches s t <> 0 -> s ∈ fetchedSpaces t.
Proof.
  intros H. destruct (decide (s ∈ fetchedSpaces t)) as [|Hn]; [assumption|].
  by rewrite countFetches_absent in H.
Qed.

Lemma resolveSource_describes spaceData source out :
  resolveSource collab spaceData source = Some out ->
  exists ref,
    pageSourceOf source = Some ref
    /\ resolvesIn spaceData ref = true
    /\ describes collab spaceData out ref.
Proof.
  destruct source as [sp pg|k]; simpl; [|discriminate].
  destruct (spaceData !! sp) as [pages|] eqn:Es; [|discriminate].
  destruct (resolvePageId pages pg) as [r|] eqn:Er; [|discriminate].
  intros [= <-]. exists (sp, pg). unfold resolvesIn, describes. simpl.
  rewrite Es, Er. repeat split. exists pages, r. auto.
Qed.

Lemma resolveSource_dropped spaceData source :
  resolveSource collab spaceData source = None ->
  match pageSourceOf source with
  | Some ref => resolvesIn spaceData ref = false
  | None => True
  end.
Proof.
  destruct source as [sp pg|k]; simpl; [|auto]. unfold resolvesIn. simpl.
  destruct (spaceData !! sp) as [pages|]; [|auto].
  destruct (resolvePageId pages pg); [discriminate|auto].
Qed.

Lemma sources_resolvable spaceData answer :
  Forall2 (describes collab spaceData)
    (filterOutNullable
       (map (resolveSource collab spaceData) (answer_sources answer)))
    (resolvablePageSources spaceData answer).
Proof.
  unfold resolvablePageSources.
  induction (answer_sources answer) as [|x l IH]; simpl; [constructor|].
  destruct (resolveSource collab spaceData x) as [out|] eqn:E.
  - destruct (resolveSource_describes _ _ _ E) as (ref & -> & Hr & Hd).
    simpl. rewrite Hr. by constructor.
  - apply resolveSource_dropped in E.
    destruct (pageSourceOf x) as [ref|]; simpl; [|exact IH].
    rewrite E. exact IH.
Qed.

End AnswerFacts.

(** * The claims about search and answer aggregation *)

Lemma fold_left_app_concat {A B : Type} (f : A -> list B) (l : list A) :
  forall acc,
    fold_left (fun prev x => prev ++ f x) l acc = acc ++ concat (map f l).
Proof.
  induction l as [|x l IH]; intros acc; simpl.
  - by rewrite app_nil_r.
  - by rewrite IH, app_assoc.
Qed.

(** C2, as stated, fails: a site-space with a title of its own, [API], that
    sits in the section titled [Guides] is given the title of the section. *)
Lemma own_title_replaced_by_section_title :
  space_title (siteSpace_space apiSiteSpace) = "API"
  /\ map (fun s => space_title (siteSpace_space s))
       (siteSpacesOf (StructureSections [guidesSection]))
     = ["Guides"].
Proof. split; reflexivity. Qed.

(** C2 (amended): when the site structure is made of titled sections, the
    site-spaces searched are those of the sections, in order, each with the
    title of its section as the title of its space whenever the title of the
    section is not empty; the own title of the space is kept only when the
    title of the section is empty.  A flat structure keeps every title.  The
    title of the space is the [spaceTitle] shown on the page results. *)
Theorem siteSpacesOf_section_titles :
  (forall siteSpaces, siteSpacesOf (StructureSiteSpaces siteSpaces) = siteSpaces)
  /\ (forall sections,
         siteSpacesOf (StructureSections sections)
         = concat (map (fun section =>
                          map (withSectionTitle section)
                              (section_siteSpaces section))
                       sections))
  /\ (forall section siteSpace,
         space_title (siteSpace_space (withSectionTitle section siteSpace))
         = sectionedTitle section siteSpace
         /\ space_id (siteSpace_space (withSectionTitle section siteSpace))
            = space_id (siteSpace_space siteSpace)
         /\ siteSpace_published (withSectionTitle section siteSpace)
            = siteSpace_published siteSpace)
  /\ (forall collab item siteSpace,
         exists p rest,
           transformSitePageResult collab item (Some siteSpace)
           = PageResult p :: rest
           /\ cp_spaceTitle p = Some (space_title (siteSpace_space siteSpace))).
Proof.
  split; [reflexivity|]. split; [|split].
  - intros sections. unfold siteSpacesOf.
    apply (fold_left_app_concat
             (fun section =>
                map (withSectionTitle section) (section_siteSpaces section))
             sections []).
  - intros section siteSpace. unfold sectionedTitle. simpl.
    split; [|split; reflexivity].
    case_bool_decide as H.
    + rewrite H. reflexivity.
    + destruct (section_title section); [congruence|reflexivity].
  - intros collab item siteSpace. unfold transformSitePageResult. simpl.
    eexists _, _. split; reflexivity.
Qed.

(** C8: for a query of length at most 1, [searchSiteContent] returns the
    empty list and makes no call to the backend, neither the search nor the
    fetch of the site structure. *)
Theorem searchSiteContent_short_query (collab : Collaborators)
  (args : SearchArgs) :
  (length (arg_query args) <= 1)%nat ->
  searchSiteContent collab args = (Fulfilled [], []).
Proof.
  intros H. unfold searchSiteContent.
  destruct (Nat.leb_spec (length (arg_query args)) 1); [reflexivity|lia].
Qed.

Lemma searchSiteContent_short_query_witness :
  searchSiteContent failingBackend
    (mkSearchArgs (mkPointer "org" "site" None None) euroQuery ScopeAll None)
  = (Fulfilled [], []).
Proof.
  apply (searchSiteContent_short_query failingBackend
           (mkSearchArgs (mkPointer "org" "site" None None) euroQuery
              ScopeAll None)).
  simpl. lia.
Defined.

(** C3, as stated, fails: when the fetch of the page list of [S] fails, the
    rejection goes through [transformAnswer]; no result is returned. *)
Lemma transformAnswer_rejects_when_fetch_fails :
  transformAnswer failingBackend answerFromS ∅
  = (Rejected, ∅,
     [Started (CallGetSpaceContentData "S");
      Settled (CallGetSpaceContentData "S")]).
Proof.
  rewrite transformAnswer_eq. simpl. unfold bind.
  rewrite fetchSpace_unknown by apply lookup_empty. reflexivity.
Qed.

(** C3 (amended): for an answer whose only source is a page of a space [S]
    that is not in the cache yet: when the fetch of the page list of [S]
    fails, [transformAnswer] rejects and returns no result; when the fetch
    succeeds and the page id does not resolve in that page list,
    [transformAnswer] returns a result whose sources are empty and whose
    follow-up questions and body come from the answer. *)
Theorem transformAnswer_single_unresolved_source (collab : Collaborators)
  (answer : SearchAIAnswer) (S p : string) (spaceData : SpaceData) :
  answer_sources answer = [SourcePage S p] ->
  spaceData !! S = None ->
  (api_getSpaceContentData collab S = None ->
   transformAnswer collab answer spaceData
   = (Rejected, spaceData,
      [Started (CallGetSpaceContentData S);
       Settled (CallGetSpaceContentData S)]))
  /\ (forall pages,
         api_getSpaceContentData collab S = Some pages ->
         resolvePageId pages p = None ->
         transformAnswer collab answer spaceData
         = (Fulfilled
              (mkAnswerResult (renderBody (answer_answer answer))
                 (answer_followupQuestions answer) []),
            <[S := pages]> spaceData,
            [Started (CallGetSpaceContentData S);
             Settled (CallGetSpaceContentData S)])).
Proof.
  intros Hs Hc. rewrite transformAnswer_eq. unfold referencedSpaces.
  rewrite Hs. simpl. unfold bind.
  rewrite fetchSpace_unknown by assumption. split.
  - intros ->. reflexivity.
  - intros pages -> Hp. simpl. rewrite lookup_insert_eq, Hp. reflexivity.
Qed.

Lemma transformAnswer_single_unresolved_source_witness :
  transformAnswer backendWithS answerFromS ∅
  = (Fulfilled (mkAnswerResult (renderBody (Some (ContentDocument "doc")))
                  ["What next?"] []),
     <["S" := [Document "p2" "intro" "Intro" []]]> ∅,
     [Started (CallGetSpaceContentData "S");
      Settled (CallGetSpaceContentData "S")]).
Proof.
  apply (proj2 (transformAnswer_single_unresolved_source backendWithS
                  answerFromS "S" "p1" ∅ eq_refl (lookup_empty _))
           [Document "p2" "intro" "Intro" []]);
    reflexivity.
Defined.

Lemma siteSpacesOf_section_titles_witness :
  space_title (siteSpace_space (withSectionTitle guidesSection apiSiteSpace))
  = "Guides".
Proof.
  rewrite (proj1 (proj1 (proj2 (proj2 siteSpacesOf_section_titles))
                    guidesSection apiSiteSpace)).
  reflexivity.
Defined.

(** C7: along one run of [streamAskQuestion], with its one cache, the page
    list of a space is never requested twice, only spaces referenced by page
    sources are requested, and when the run completes every space referenced
    by a page source of a chunk has been requested exactly once; the
    requests are serialized, at most one being in flight at any time. *)
Theorem streamAskQuestion_fetches_each_space_once (collab : Collaborators)
  (organizationId siteId : string) (siteSpaceId : option string)
  (question : string) :
  let run :=
    streamAskQuestion collab organizationId siteId siteSpaceId question in
  let referenced :=
    concat (map chunkSpaces
              (askStream collab organizationId siteId siteSpaceId question)) in
  (forall s, countFetches s (traceOf run) <= 1)
  /\ (forall s, countFetches s (traceOf run) = 1 -> s ∈ referenced)
  /\ (outcomeOf run = Fulfilled tt ->
      forall s, s ∈ referenced -> countFetches s (traceOf run) = 1)
  /\ Serialized (traceOf run)
  /\ maxInFlight 0 (traceOf run) <= 1.
Proof.
  intros run referenced. subst run referenced. unfold streamAskQuestion.
  destruct (consumeStream collab _ ∅) as [[[ys o] cache] t] eqn:E.
  apply consumeStream_run in E. destruct E as [A B C D E F G].
  unfold traceOf, outcomeOf. simpl.
  split; [|split; [|split; [|split]]].
  - intros s. destruct (decide (s ∈ fetchedSpaces t)) as [Hin|Hn].
    + by rewrite countFetches_once.
    + rewrite countFetches_absent by assumption. lia.
  - intros s H. apply C, countFetches_fetched. lia.
  - intros -> s Hs. destruct (F eq_refl) as [F1 _].
    destruct (F1 s Hs) as [pages Hp].
    destruct (E s pages Hp) as [He|[Hin _]].
    + rewrite lookup_empty in He. discriminate.
    + by apply countFetches_once.
  - assumption.
  - apply Serialized_in_flight. assumption.
Qed.

Lemma streamAskQuestion_fetches_each_space_once_witness :
  countFetches "S"
    (traceOf (streamAskQuestion backendWithS "org" "site" None "How?"))
  = 1.
Proof.
  apply (proj1 (proj2 (proj2
           (streamAskQuestion_fetches_each_space_once backendWithS
              "org" "site" None "How?")))).
  - vm_compute. reflexivity.
  - simpl. apply list_elem_of_here.
Defined.

(** C10: the sources of the result of [transformAnswer] are, in the order of
    the chunk, the page sources of the chunk whose page id resolves in the
    cached page list of their space, each with its page id, the title of
    the resolved page and its link; the other sources are left out.  The
    space of every page source is in the cache by then. *)
Theorem transformAnswer_sources (collab : Collaborators)
  (answer : SearchAIAnswer) (before after : SpaceData)
  (result : AskAnswerResult) (t : Trace) :
  transformAnswer collab answer before = (Fulfilled result, after, t) ->
  Forall2 (describes collab after) (sources result)
    (resolvablePageSources after answer)
  /\ map as_id (sources result)
     = map snd (resolvablePageSources after answer)
  /\ (forall space page,
         SourcePage space page ∈ answer_sources answer ->
         is_Some (after !! space)).
Proof.
  intros H. pose proof (transformAnswer_run _ _ _ _ _ _ H) as Hrun.
  rewrite transformAnswer_eq in H.
  destruct (pMapSerial _ _ _) as [[[[]|] sd] t'] eqn:E; [|discriminate].
  injection H as <- <- <-. simpl.
  pose proof (sources_resolvable collab sd answer) as Hall.
  split; [exact Hall|]. split.
  - induction Hall as [|out ref outs refs (pages & r & _ & _ & ->) _ IH];
      simpl; [reflexivity|]. by rewrite IH.
  - intros space pg Hin. destruct Hrun as [_ _ _ _ _ F _].
    destruct (F eq_refl) as [F1 _]. apply F1.
    apply list_elem_of_omap. exists (SourcePage space pg). auto.
Qed.

Lemma transformAnswer_backendWithS :
  transformAnswer backendWithS
    (mkAnswer None []
       [SourcePage "S" "p2"; SourceOther "entity"; SourcePage "S" "p1"]) ∅
  = (Fulfilled (mkAnswerResult None [] [mkAnswerSource "p2" "Intro" "intro"]),
     <["S" := [Document "p2" "intro" "Intro" []]]> ∅,
     [Started (CallGetSpaceContentData "S");
      Settled (CallGetSpaceContentData "S")]).
Proof.
  rewrite transformAnswer_eq. simpl. unfold bind.
  rewrite fetchSpace_unknown by apply lookup_empty. simpl.
  rewrite lookup_insert_eq. reflexivity.
Qed.

Lemma transformAnswer_sources_witness :
  map as_id
    (sources
       (mkAnswerResult None []
          [mkAnswerSource "p2" "Intro" "intro"]))
  = map snd
      (resolvablePageSources
         (<["S" := [Document "p2" "intro" "Intro" []]]> ∅)
         (mkAnswer None []
            [SourcePage "S" "p2"; SourceOther "entity"; SourcePage "S" "p1"])).
Proof.
  exact (proj1 (proj2
           (transformAnswer_sources backendWithS _ _ _ _ _
              transformAnswer_backendWithS))).
Defined.

(** * Further properties of the page resolvers *)

(** ** The two searches are one search *)

Lemma searchChildren_eq test pg anc :
  searchChildren test pg anc = searchPages test (pagesOf pg) (anc ++ [pg]).
Proof.
  destruct pg as [i q t ps|i q t ps|i t]; simpl; [| |reflexivity];
    generalize (anc ++ [Document i q t ps]), (anc ++ [Group i q t ps]);
    intros a b;
    (induction ps as [|x r IH]; simpl; [reflexivity|]);
    rewrite IH; reflexivity.
Qed.

Lemma searchPages_cons test q rest anc :
  searchPages test (q :: rest) anc
  = if isLink q then searchPages test rest anc
    else if test q then resolvePageDocument q anc
    else match searchPages test (pagesOf q) (anc ++ [q]) with
         | Some result => Some result
         | None => searchPages test rest anc
         end.
Proof. simpl. rewrite searchChildren_eq. reflexivity. Qed.

Lemma iteratePagesId_search pageIdArg pages :
  forall anc,
    iteratePagesId pageIdArg pages anc
    = searchPages (fun q => String.eqb (pageId q) pageIdArg) pages anc.
Proof.
  induction pages as [|q rest IHq IHrest] using forest_ind; intros anc;
    [reflexivity|].
  rewrite iteratePagesId_cons, searchPages_cons, IHq, IHrest. reflexivity.
Qed.

Lemma iteratePagesPath_search pagePath pages :
  forall anc,
    iteratePagesPath pagePath pages anc
    = searchPages (fun q => String.eqb (pagePathOf q) pagePath) pages anc.
Proof.
  induction pages as [|q rest IHq IHrest] using forest_ind; intros anc;
    [reflexivity|].
  rewrite iteratePagesPath_cons, searchPages_cons, IHq, IHrest.
  destruct (String.eqb (pagePathOf q) pagePath); reflexivity.
Qed.

Lemma resolvePagePath_nonempty rootPages pagePath :
  pagePath <> "" ->
  resolvePagePath rootPages pagePath
  = searchPages (fun q => String.eqb (pagePathOf q) pagePath) rootPages [].
Proof.
  intros H. unfold resolvePagePath. destruct pagePath; [congruence|].
  apply iteratePagesPath_search.
Qed.

(** ** What a search finds *)

Lemma resolvePageDocument_flat q anc r :
  isLink q = false ->
  resolvePageDocument q anc = Some r ->
  page r ∈ (if isDocument q then [q] else []) ++ flattenPages (pagesOf q).
Proof.
  intros Hq. rewrite resolvePageDocument_nonlink by assumption.
  destruct (isDocument q).
  - intros [= <-]. apply list_elem_of_here.
  - intros H. destruct (descent_resolveFirstDocument _ _ _ H) as (g & Hd & _).
    apply descent_head_flatten in Hd. simpl.
    by apply head_Some_elem_of.
Qed.

Lemma searchPages_flat test pages :
  forall anc r,
    searchPages test pages anc = Some r -> page r ∈ flattenPages pages.
Proof.
  induction pages as [|q rest IHq IHrest] using forest_ind; intros anc r;
    [discriminate|].
  rewrite searchPages_cons, flattenPages_cons. destruct (isLink q) eqn:El.
  { apply IHrest. }
  destruct (test q).
  { intros H. apply (resolvePageDocument_flat _ _ _ El) in H.
    rewrite app_assoc. apply elem_of_app. by left. }
  destruct (searchPages test (pagesOf q) (anc ++ [q])) as [r'|] eqn:E.
  - intros [= <-]. apply IHq in E. rewrite !elem_of_app. auto.
  - intros H. apply IHrest in H. rewrite !elem_of_app. auto.
Qed.

Lemma searchPages_missing test pages :
  (forall n, n ∈ allPages pages -> isLink n = false -> test n = false) ->
  forall anc, searchPages test pages anc = None.
Proof.
  induction pages as [|q rest IHq IHrest] using forest_ind; intros Hall anc;
    [reflexivity|].
  rewrite allPages_cons in Hall. rewrite searchPages_cons.
  destruct (isLink q) eqn:El.
  { apply IHrest. intros n Hn. apply Hall.
    apply list_elem_of_further, elem_of_app. by right. }
  rewrite (Hall q (list_elem_of_here _ _) El).
  rewrite IHq, IHrest; [reflexivity| |].
  - intros n Hn. apply Hall, list_elem_of_further, elem_of_app. by right.
  - intros n Hn. apply Hall, list_elem_of_further, elem_of_app. by left.
Qed.

Lemma searchPages_matched test pages :
  forall anc r,
    searchPages test pages anc = Some r ->
    exists chain,
      ancestors r = anc ++ chain
      /\ (test (page r) = true
          \/ exists g, g ∈ chain /\ isGroup g = true /\ test g = true).
Proof.
  induction pages as [|q rest IHq IHrest] using forest_ind; intros anc r;
    [discriminate|].
  rewrite searchPages_cons. destruct (isLink q) eqn:El; [apply IHrest|].
  destruct (test q) eqn:Et.
  - rewrite resolvePageDocument_nonlink by assumption.
    destruct (isDocument q) eqn:Ed.
    + intros [= <-]. exists []. rewrite app_nil_r. auto.
    + intros H. destruct (descent_resolveFirstDocument _ _ _ H) as (gs & _ & Ha).
      exists (q :: gs). rewrite Ha, <- app_assoc. split; [reflexivity|].
      right. exists q. split; [apply list_elem_of_here|]. split; [|assumption].
      destruct (nonlink_cases q El); congruence.
  - destruct (searchPages test (pagesOf q) (anc ++ [q])) as [r'|] eqn:E.
    + intros [= <-]. destruct (IHq _ _ E) as (chain & Ha & Hm).
      exists (q :: chain). rewrite Ha, <- app_assoc. split; [reflexivity|].
      destruct Hm as [Hm|(g & Hg & Hm)]; [by left|].
      right. exists g. split; [by apply list_elem_of_further|assumption].
    + apply IHrest.
Qed.

Lemma searchPages_only test pages (D : RevisionPage) :
  isDocument D = true ->
  (forall n, n ∈ allPages pages -> isLink n = false -> test n = true -> n = D) ->
  forall anc,
    searchPages test pages anc = None
    \/ exists chain, searchPages test pages anc = Some (mkResolved D (anc ++ chain)).
Proof.
  intros HD.
  induction pages as [|q rest IHq IHrest] using forest_ind; intros Hall anc;
    [by left|].
  rewrite allPages_cons in Hall. rewrite searchPages_cons.
  assert (Hrest : forall n, n ∈ allPages rest -> isLink n = false ->
                            test n = true -> n = D).
  { intros n Hn. apply Hall, list_elem_of_further, elem_of_app. by right. }
  assert (Hsub : forall n, n ∈ allPages (pagesOf q) -> isLink n = false ->
                           test n = true -> n = D).
  { intros n Hn. apply Hall, list_elem_of_further, elem_of_app. by left. }
  destruct (isLink q) eqn:El; [by apply IHrest|].
  destruct (test q) eqn:Et.
  - rewrite (Hall q (list_elem_of_here _ _) El Et).
    rewrite resolvePageDocument_nonlink by (by apply isDocument_not_link).
    rewrite HD. right. exists []. by rewrite app_nil_r.
  - destruct (IHq Hsub (anc ++ [q])) as [->|(chain & ->)]; [by apply IHrest|].
    right. exists (q :: chain). by rewrite <- app_assoc.
Qed.

Lemma searchPages_finds test pages (D : RevisionPage) :
  test D = true ->
  (forall n, n ∈ allPages pages -> isLink n = false -> test n = true -> n = D) ->
  D ∈ flattenPages pages ->
  forall anc,
    exists chain, searchPages test pages anc = Some (mkResolved D (anc ++ chain)).
Proof.
  intros Ht.
  induction pages as [|q rest IHq IHrest] using forest_ind;
    intros Hall Hin anc.
  { by apply elem_of_nil in Hin. }
  assert (HD : isDocument D = true).
  { pose proof (flattenPages_documents (q :: rest)) as Hf.
    rewrite Forall_forall in Hf. by apply Hf. }
  rewrite allPages_cons in Hall.
  assert (Hrest : forall n, n ∈ allPages rest -> isLink n = false ->
                            test n = true -> n = D).
  { intros n Hn. apply Hall, list_elem_of_further, elem_of_app. by right. }
  assert (Hsub : forall n, n ∈ allPages (pagesOf q) -> isLink n = false ->
                           test n = true -> n = D).
  { intros n Hn. apply Hall, list_elem_of_further, elem_of_app. by left. }
  rewrite flattenPages_cons in Hin. rewrite searchPages_cons.
  destruct (isLink q) eqn:El; [by apply IHrest|].
  destruct (test q) eqn:Et.
  - rewrite (Hall q (list_elem_of_here _ _) El Et).
    rewrite resolvePageDocument_nonlink by (by apply isDocument_not_link).
    rewrite HD. exists []. by rewrite app_nil_r.
  - destruct (searchPages_only test (pagesOf q) D HD Hsub (anc ++ [q]))
      as [Hn|(chain & Hs)].
    + rewrite Hn. apply IHrest; [assumption|].
      apply elem_of_app in Hin as [Hin|Hin].
      { destruct (isDocument q); [|by apply elem_of_nil in Hin].
        apply list_elem_of_singleton in Hin. congruence. }
      apply elem_of_app in Hin as [Hin|Hin]; [|assumption].
      destruct (IHq Hsub Hin (anc ++ [q])) as (chain & Hs). congruence.
    + rewrite Hs. exists (q :: chain). by rewrite <- app_assoc.
Qed.

Lemma flattenPages_filter pages :
  flattenPages pages = List.filter isDocument (allPages pages).
Proof.
  induction pages as [|q rest IHq IHrest] using forest_ind; [reflexivity|].
  rewrite flattenPages_cons, allPages_cons. simpl.
  rewrite List.filter_app, <- IHq, <- IHrest.
  destruct q as [i p t ps|i p t ps|i t]; reflexivity.
Qed.

Lemma positions_chain pages :
  forall anc c x,
    (c, x) ∈ positions pages anc ->
    exists chain, c = anc ++ chain /\ ParentChain pages chain x.
Proof.
  induction pages as [|q rest IHq IHrest] using forest_ind; intros anc c x.
  { intros H. by apply elem_of_nil in H. }
  rewrite positions_cons.
  intros [[= -> ->]|[H|H]%elem_of_app]%elem_of_cons.
  - exists []. rewrite app_nil_r. split; [reflexivity|].
    apply chain_root, list_elem_of_here.
  - destruct (IHq _ _ _ H) as (chain & -> & Hc).
    exists (q :: chain). rewrite <- app_assoc. split; [reflexivity|].
    apply chain_child; [apply list_elem_of_here| |assumption].
    destruct q; simpl in *; try reflexivity. by apply elem_of_nil in H.
  - destruct (IHrest _ _ _ H) as (chain & -> & Hc).
    exists chain. split; [reflexivity|].
    inversion Hc; subst; [apply chain_root|eapply chain_child; eauto];
      by apply list_elem_of_further.
Qed.

Lemma findIndexFrom_absent {A : Type} (f : A -> bool) (l : list A) :
  (forall x, x ∈ l -> f x = false) ->
  forall k, findIndexFrom f l k = (-1)%Z.
Proof.
  induction l as [|a l IH]; intros Hall k; [reflexivity|]. simpl.
  rewrite (Hall a (list_elem_of_here _ _)). apply IH.
  intros x Hx. by apply Hall, list_elem_of_further.
Qed.

Lemma flattenPages_allPages pages d :
  d ∈ flattenPages pages -> d ∈ allPages pages.
Proof.
  intros H. eapply elem_of_sublist; [exact H|apply flattenPages_sublist].
Qed.

Lemma resolvePagePath_empty_head T r :
  resolvePagePath T "" = Some r -> head (flattenPages T) = Some (page r).
Proof.
  unfold resolvePagePath.
  destruct (resolveFirstDocument T []) as [r'|] eqn:E; [|discriminate].
  intros [= <-].
  destruct (descent_resolveFirstDocument _ _ _ E) as (g & Hd & _).
  by eapply descent_head_flatten.
Qed.

(** ** Extra properties *)

(** X1: the flattened sequence is the pre-order listing of the nodes of the
    tree with everything but the documents left out. *)
Theorem flattenPages_documents_in_preorder (T : list RevisionPage) :
  flattenPages T = List.filter isDocument (allPages T).
Proof. apply flattenPages_filter. Qed.

(** X2: in a tree with unique ids, looking up the id of a document of the
    tree returns that very document. *)
Theorem resolvePageId_finds_document (T : list RevisionPage)
  (D : RevisionPage) :
  uniqueIds T ->
  D ∈ flattenPages T ->
  exists anc, resolvePageId T (pageId D) = Some (mkResolved D anc).
Proof.
  intros Hu Hin. unfold resolvePageId. rewrite iteratePagesId_search.
  destruct (searchPages_finds
              (fun q => String.eqb (pageId q) (pageId D)) T D) with (anc := @nil RevisionPage)
    as (chain & ->).
  - apply String.eqb_refl.
  - intros n Hn _ He. apply String.eqb_eq in He.
    apply (NoDup_fmap_unique pageId (allPages T)); auto.
    by apply flattenPages_allPages.
  - assumption.
  - eauto.
Qed.

Lemma resolvePageId_finds_document_witness :
  exists anc, resolvePageId guidesTree "b" = Some (mkResolved docB anc).
Proof.
  apply (resolvePageId_finds_document guidesTree docB guidesTree_uniqueIds).
  simpl. apply list_elem_of_further, list_elem_of_here.
Defined.

(** X3: looking up the path of a document of the tree returns that very
    document, when the path is not empty and no other document or group of
    the tree has it. *)
Theorem resolvePagePath_finds_document (T : list RevisionPage)
  (D : RevisionPage) :
  pagePathOf D <> "" ->
  (forall n, n ∈ allPages T -> isLink n = false ->
             pagePathOf n = pagePathOf D -> n = D) ->
  D ∈ flattenPages T ->
  exists anc, resolvePagePath T (pagePathOf D) = Some (mkResolved D anc).
Proof.
  intros Hne Hu Hin. rewrite resolvePagePath_nonempty by assumption.
  destruct (searchPages_finds
              (fun q => String.eqb (pagePathOf q) (pagePathOf D)) T D) with (anc := @nil RevisionPage)
    as (chain & ->).
  - apply String.eqb_refl.
  - intros n Hn Hl He. apply String.eqb_eq in He. auto.
  - assumption.
  - eauto.
Qed.

Lemma resolvePagePath_finds_document_witness :
  exists anc, resolvePagePath guidesTree "intro/deep" = Some (mkResolved docB anc).
Proof.
  apply (resolvePagePath_finds_document guidesTree docB).
  - discriminate.
  - intros n Hn _ Hp. simpl in Hn.
    repeat (apply elem_of_cons in Hn as [->|Hn]; [try discriminate Hp|]);
      [reflexivity|by apply elem_of_nil in Hn].
  - simpl. apply list_elem_of_further, list_elem_of_here.
Defined.

(** X4: a page found by id has the requested id, or lies under a group
    that has it and was resolved to its first document; when no document or
    group of the tree has the id, nothing is found. *)
Theorem resolvePageId_matches (T : list RevisionPage) (pageIdArg : string) :
  (forall r, resolvePageId T pageIdArg = Some r ->
             pageId (page r) = pageIdArg
             \/ exists g, g ∈ ancestors r /\ isGroup g = true
                          /\ pageId g = pageIdArg)
  /\ ((forall n, n ∈ allPages T -> isLink n = false -> pageId n <> pageIdArg) ->
      resolvePageId T pageIdArg = None).
Proof.
  unfold resolvePageId. rewrite iteratePagesId_search. split.
  - intros r H. destruct (searchPages_matched _ _ _ _ H) as (chain & Ha & Hm).
    rewrite Ha. simpl. destruct Hm as [Hm|(g & Hg & Hgg & Hm)].
    + left. by apply String.eqb_eq.
    + right. exists g. repeat split; [assumption..|by apply String.eqb_eq].
  - intros Hall. apply searchPages_missing. intros n Hn Hl.
    apply String.eqb_neq. auto.
Qed.

Lemma resolvePageId_matches_witness : resolvePageId guidesTree "zz" = None.
Proof.
  apply (proj2 (resolvePageId_matches guidesTree "zz")).
  intros n Hn _. simpl in Hn.
  repeat (apply elem_of_cons in Hn as [->|Hn]; [discriminate|]).
  by apply elem_of_nil in Hn.
Defined.

(** X5: for a path that is not empty, a page found by path has the
    requested path, or lies under a group that has it and was resolved to
    its first document; when no document or group of the tree has the path,
    nothing is found. *)
Theorem resolvePagePath_matches (T : list RevisionPage) (pagePath : string) :
  pagePath <> "" ->
  (forall r, resolvePagePath T pagePath = Some r ->
             pagePathOf (page r) = pagePath
             \/ exists g, g ∈ ancestors r /\ isGroup g = true
                          /\ pagePathOf g = pagePath)
  /\ ((forall n, n ∈ allPages T -> isLink n = false ->
                 pagePathOf n <> pagePath) ->
      resolvePagePath T pagePath = None).
Proof.
  intros Hne. rewrite resolvePagePath_nonempty by assumption. split.
  - intros r H. destruct (searchPages_matched _ _ _ _ H) as (chain & Ha & Hm).
    rewrite Ha. simpl. destruct Hm as [Hm|(g & Hg & Hgg & Hm)].
    + left. by apply String.eqb_eq.
    + right. exists g. repeat split; [assumption..|by apply String.eqb_eq].
  - intros Hall. apply searchPages_missing. intros n Hn Hl.
    apply String.eqb_neq. auto.
Qed.

Lemma resolvePagePath_matches_witness :
  pagePathOf docA = "intro"
  \/ exists g, g ∈ [groupGuides] /\ isGroup g = true /\ pagePathOf g = "intro".
Proof.
  apply (proj1 (resolvePagePath_matches guidesTree "intro" ltac:(discriminate))
           (mkResolved docA [groupGuides])).
  reflexivity.
Defined.

(** X6: the ancestors returned by [resolvePageId] and by [resolvePagePath]
    are the chain of parents of the page: the first is a root page, each
    next one a child of the one before, and the page a child of the last. *)
Theorem resolved_ancestors_parent_chain (T : list RevisionPage) :
  (forall pageIdArg r,
      resolvePageId T pageIdArg = Some r ->
      ParentChain T (ancestors r) (page r))
  /\ (forall pagePath r,
         resolvePagePath T pagePath = Some r ->
         ParentChain T (ancestors r) (page r)).
Proof.
  assert (H : forall r, Located T [] r -> ParentChain T (ancestors r) (page r)).
  { intros r (_ & _ & Hp).
    destruct (positions_chain _ _ _ _ Hp) as (chain & -> & Hc). exact Hc. }
  split; intros x r Hr; apply H.
  - by eapply resolvePageId_located.
  - by eapply resolvePagePath_located.
Qed.

Lemma resolved_ancestors_parent_chain_witness :
  ParentChain guidesTree [groupGuides; groupSub] docB.
Proof.
  apply (proj1 (resolved_ancestors_parent_chain guidesTree) "b"
           (mkResolved docB [groupGuides; groupSub])).
  reflexivity.
Defined.

(** X7: the page returned by [resolvePageId] or [resolvePagePath] is an
    element of the flattened sequence, so that [resolvePrevNextPages] can
    place it. *)
Theorem resolved_page_in_flattenPages (T : list RevisionPage) :
  (forall pageIdArg r,
      resolvePageId T pageIdArg = Some r -> page r ∈ flattenPages T)
  /\ (forall pagePath r,
         resolvePagePath T pagePath = Some r -> page r ∈ flattenPages T).
Proof.
  split.
  - intros i r. unfold resolvePageId. rewrite iteratePagesId_search.
    apply searchPages_flat.
  - intros p r. destruct (decide (p = "")) as [->|Hne].
    + intros H.
      apply resolvePagePath_empty_head in H.
      by apply head_Some_elem_of.
    + rewrite resolvePagePath_nonempty by assumption. apply searchPages_flat.
Qed.

Lemma resolved_page_in_flattenPages_witness : docB ∈ flattenPages guidesTree.
Proof.
  apply (proj1 (resolved_page_in_flattenPages guidesTree) "b"
           (mkResolved docB [groupGuides; groupSub])).
  reflexivity.
Defined.

(** X8: for a page whose id is the id of no document of the tree,
    [resolvePrevNextPages] returns neither a previous nor a next page. *)
Theorem resolvePrevNextPages_unknown_page (T : list RevisionPage)
  (pg : RevisionPage) :
  (forall d, d ∈ flattenPages T -> pageId d <> pageId pg) ->
  resolvePrevNextPages T pg = mkPrevNext None None.
Proof.
  intros H. unfold resolvePrevNextPages, findIndex.
  rewrite findIndexFrom_absent; [reflexivity|].
  intros d Hd. apply String.eqb_neq. auto.
Qed.

Lemma resolvePrevNextPages_unknown_page_witness :
  resolvePrevNextPages guidesTree groupSub = mkPrevNext None None.
Proof.
  apply (resolvePrevNextPages_unknown_page guidesTree groupSub).
  intros d Hd. simpl in Hd.
  repeat (apply elem_of_cons in Hd as [->|Hd]; [discriminate|]).
  by apply elem_of_nil in Hd.
Defined.

(** X9: in a tree whose document ids are pairwise distinct, the previous and
    next pages of a document are the entries next to it in the flattened
    sequence; the first document has no previous page and the last one no
    next page. *)
Theorem resolvePrevNextPages_adjacent (T : list RevisionPage)
  (D : RevisionPage) (before after : list RevisionPage) :
  NoDup (pageId <$> flattenPages T) ->
  flattenPages T = before ++ D :: after ->
  resolvePrevNextPages T D = mkPrevNext (last before) (head after).
Proof.
  intros Hnd Hf.
  assert (Hn : flattenPages T !! length before = Some D).
  { rewrite Hf. apply list_lookup_middle. reflexivity. }
  rewrite (resolvePrevNextPages_at T _ D Hnd Hn). f_equal.
  - rewrite last_lookup. destruct (length before) as [|m] eqn:El; simpl.
    + apply length_zero_iff_nil in El. by subst.
    + rewrite Hf, lookup_app_l by lia. reflexivity.
  - rewrite Hf, (lookup_app_r before) by lia.
    replace (S (length before) - length before) with 1 by lia.
    simpl. by rewrite head_lookup.
Qed.

Lemma resolvePrevNextPages_adjacent_witness :
  resolvePrevNextPages guidesTree docB = mkPrevNext (Some docA) None.
Proof.
  apply (resolvePrevNextPages_adjacent guidesTree docB [docA] []
           (uniqueIds_documents _ guidesTree_uniqueIds)).
  reflexivity.
Defined.

(** * Further properties of search and answer aggregation *)

(** ** Strings *)

Lemma append_assoc (a b c : string) :
  ((a ++ b) ++ c)%string = (a ++ (b ++ c))%string.
Proof.
  induction a as [|x a IH]; [reflexivity|].
  change (String x ((a ++ b) ++ c)%string = String x (a ++ (b ++ c))%string).
  by rewrite IH.
Qed.

Lemma endsWithSlash_append (b : string) :
  endsWithSlash (b ++ "/")%string = true.
Proof.
  induction b as [|x b IH]; [reflexivity|].
  change (endsWithSlash (String x (b ++ "/")%string) = true).
  destruct b; [reflexivity|exact IH].
Qed.

Lemma prefix_append (s t : string) : String.prefix s (s ++ t)%string = true.
Proof.
  induction s as [|x s IH]; [by destruct t|].
  change (String.prefix (String x s) (String x (s ++ t)%string) = true).
  simpl. destruct (Ascii.ascii_dec x x); [exact IH|congruence].
Qed.

Lemma getURL_joined collab base path :
  base <> "" ->
  getURL collab path (Some base)
  = ((if endsWithSlash base then base else (base ++ "/")%string)
       ++ (if startsWithSlash path then slice1 path else path))%string.
Proof.
  intros H. destruct base as [|c u]; [congruence|].
  unfold getURL. destruct (endsWithSlash (String c u)); reflexivity.
Qed.

(** ** Extra properties *)

(** X10: with a space URL, [getURL] joins the URL and the path with one
    slash, whether or not the URL ends with a slash and whether or not the
    path starts with one. *)
Theorem getURL_one_slash (collab : Collaborators) (base path : string) :
  base <> "" ->
  endsWithSlash base = false ->
  startsWithSlash path = false ->
  getURL collab path (Some base) = (base ++ "/" ++ path)%string
  /\ getURL collab ("/" ++ path)%string (Some base)
     = (base ++ "/" ++ path)%string
  /\ getURL collab path (Some (base ++ "/")%string)
     = (base ++ "/" ++ path)%string
  /\ getURL collab ("/" ++ path)%string (Some (base ++ "/")%string)
     = (base ++ "/" ++ path)%string.
Proof.
  intros Hb He Hs.
  assert (Hb' : (base ++ "/")%string <> "") by (destruct base; discriminate).
  rewrite !getURL_joined by assumption.
  rewrite He, Hs, endsWithSlash_append. simpl.
  rewrite !append_assoc. auto.
Qed.

Lemma getURL_one_slash_witness :
  getURL searchBackend "/guide/page" (Some "https://docs/api/")
  = "https://docs/api/guide/page".
Proof.
  apply (proj2 (proj2 (proj2
           (getURL_one_slash searchBackend "https://docs/api" "guide/page"
              ltac:(discriminate) eq_refl eq_refl)))).
Defined.

Lemma transform_keys collab item space spaceURL :
  let '(p, sections) := transformSectionsAndPage collab item space spaceURL in
  map resultKey (PageResult p :: map SectionResult sections) = hitKeys item.
Proof.
  unfold transformSectionsAndPage, hitKeys. simpl. f_equal.
  destruct (sr_page_sections item) as [sections|]; [|reflexivity].
  rewrite !map_map. reflexivity.
Qed.

Lemma transformSitePageResult_keys collab item siteSpace :
  map resultKey (transformSitePageResult collab item siteSpace) = hitKeys item.
Proof.
  unfold transformSitePageResult.
  pose proof (transform_keys collab item (option_map siteSpace_space siteSpace)
                (match siteSpace with
                 | Some s => siteSpace_published s
                 | None => None
                 end)) as H.
  destruct (transformSectionsAndPage _ _ _ _) as [p sections]. exact H.
Qed.

Lemma transformPageResult_keys collab item space :
  map resultKey (transformPageResult collab item space) = hitKeys item.
Proof.
  unfold transformPageResult.
  match goal with
  | |- context [transformSectionsAndPage collab item space ?u] =>
      pose proof (transform_keys collab item space u) as H;
      destruct (transformSectionsAndPage collab item space u) as [p sections]
  end.
  exact H.
Qed.

Lemma flat2_keys (g : SearchSpaceResult -> SearchPageResult ->
                      list OrderedComputedResult)
  (spaces : list SearchSpaceResult) :
  (forall spaceItem item, map resultKey (g spaceItem item) = hitKeys item) ->
  map resultKey
    (concat (concat
       (map (fun spaceItem => map (g spaceItem) (sr_space_pages spaceItem))
            spaces)))
  = concat (map hitKeys (concat (map sr_space_pages spaces))).
Proof.
  intros Hg. induction spaces as [|sp spaces IH]; [reflexivity|].
  simpl. rewrite concat_app, !map_app, concat_app, IH. f_equal.
  induction (sr_space_pages sp) as [|item l IHl]; [reflexivity|].
  simpl. rewrite map_app, Hg, IHl. reflexivity.
Qed.

(** X11: the results of [searchSiteContent] are, hit after hit in the order
    of the backend, the page record of the hit followed by its section
    records, whose ids are [<pageId>/<sectionId>]; this holds with and
    without a site structure. *)
Theorem searchSiteContent_result_order (collab : Collaborators)
  (args : SearchArgs) (results : list OrderedComputedResult) (t : Trace) :
  (1 < length (arg_query args))%nat ->
  searchSiteContent collab args = (Fulfilled results, t) ->
  exists searchResults,
    api_searchSiteContent collab (organizationId (arg_pointer args))
      (siteId (arg_pointer args)) (arg_query args) (arg_scope args)
      (arg_cacheBust args) = Some searchResults
    /\ map resultKey results = concat (map hitKeys (hitPages searchResults)).
Proof.
  intros Hq. unfold searchSiteContent.
  destruct (Nat.leb_spec (length (arg_query args)) 1); [lia|].
  destruct (api_searchSiteContent _ _ _ _ _ _) as [searchResults|];
    simpl; [|discriminate].
  destruct (needsStructure (arg_scope args)).
  - destruct (api_getSiteData collab (arg_pointer args)) as [d|];
      simpl; [|discriminate].
    intros [= <- _]. exists searchResults. split; [reflexivity|].
    apply (flat2_keys
             (fun spaceItem item =>
                transformSitePageResult collab item
                  (find (fun siteSpace =>
                           String.eqb (space_id (siteSpace_space siteSpace))
                             (sr_space_id spaceItem))
                        (siteSpacesOf (siteData_structure d))))).
    intros. apply transformSitePageResult_keys.
  - simpl. intros [= <- _]. exists searchResults. split; [reflexivity|].
    apply (flat2_keys (fun _ item => transformPageResult collab item None)).
    intros. apply transformPageResult_keys.
Qed.

Lemma searchSiteContent_result_order_witness :
  exists searchResults,
    Some (mkSearchResults [mkSearchSpace "space-api" [sampleHit]])
    = Some searchResults
    /\ [(true, "page1"); (false, "page1/s1")]
       = concat (map hitKeys (hitPages searchResults)).
Proof.
  apply (searchSiteContent_result_order searchBackend
           (mkSearchArgs (mkPointer "org" "site" None None) guideQuery
              ScopeAll None)
           [PageResult
              (mkComputedPage "page1" "Page" "https://docs/api/guide/page"
                 (Some "API"));
            SectionResult
              (mkComputedSection "page1/s1" "Section"
                 "https://docs/api/guide/page#s1" "text")]
           [Started (CallSearchSiteContent "org" "site" guideQuery ScopeAll None);
            Started (CallGetSiteData (mkPointer "org" "site" None None));
            Settled (CallGetSiteData (mkPointer "org" "site" None None));
            Settled (CallSearchSiteContent "org" "site" guideQuery ScopeAll None)]).
  - simpl. lia.
  - reflexivity.
Defined.

(** X12: [searchSiteContent] rejects exactly when the query is longer than
    one character and a call it makes fails: the search, or the fetch of the
    site data when the scope needs the structure.  A failure of the backend
    is never turned into an empty list. *)
Theorem searchSiteContent_rejects_iff (collab : Collaborators)
  (args : SearchArgs) :
  (searchSiteContent collab args).1 = Rejected
  <-> (1 < length (arg_query args))%nat
      /\ (api_searchSiteContent collab (organizationId (arg_pointer args))
            (siteId (arg_pointer args)) (arg_query args) (arg_scope args)
            (arg_cacheBust args) = None
          \/ (needsStructure (arg_scope args) = true
              /\ api_getSiteData collab (arg_pointer args) = None)).
Proof.
  unfold searchSiteContent.
  destruct (Nat.leb_spec (length (arg_query args)) 1) as [Hq|Hq].
  { simpl. split; [discriminate|]. intros [H _]. lia. }
  destruct (api_searchSiteContent _ _ _ _ _ _) as [searchResults|]; simpl.
  - destruct (needsStructure (arg_scope args)).
    + destruct (api_getSiteData collab (arg_pointer args)) as [d|]; simpl.
      * split; [discriminate|]. intros [_ [H|[_ H]]]; discriminate.
      * split; auto.
    + simpl. split; [discriminate|]. intros [_ [H|[H _]]]; discriminate.
  - split; auto.
Qed.

Lemma searchSiteContent_rejects_iff_witness :
  (searchSiteContent failingBackend
     (mkSearchArgs (mkPointer "org" "site" None None) guideQuery ScopeAll None)).1
  <> Rejected.
Proof.
  intros H.
  apply (proj1 (searchSiteContent_rejects_iff failingBackend
                  (mkSearchArgs (mkPointer "org" "site" None None) guideQuery
                     ScopeAll None))) in H.
  destruct H as [_ [H|[_ H]]]; discriminate H.
Defined.

Lemma In_flat2 {A B C : Type} (g : A -> B -> list C) (pagesOfA : A -> list B)
  (l : list A) (x : C) :
  In x (concat (concat (map (fun a => map (g a) (pagesOfA a)) l))) ->
  exists a b, In a l /\ In b (pagesOfA a) /\ In x (g a b).
Proof.
  intros H. apply in_concat in H as (xs & Hxs & Hx).
  apply in_concat in Hxs as (xss & Hxss & Hxs).
  apply in_map_iff in Hxss as (a & <- & Ha).
  apply in_map_iff in Hxs as (b & <- & Hb). eauto.
Qed.

(** X13: the site structure is fetched exactly when the query is longer than
    one character and the scope is the whole site, the current space, or
    more than one space; without the structure no page record carries a
    space title. *)
Theorem searchSiteContent_structure (collab : Collaborators)
  (args : SearchArgs) :
  (Started (CallGetSiteData (arg_pointer args))
     ∈ (searchSiteContent collab args).2
   <-> (1 < length (arg_query args))%nat
       /\ needsStructure (arg_scope args) = true)
  /\ (needsStructure (arg_scope args) = false ->
      forall results p,
        (searchSiteContent collab args).1 = Fulfilled results ->
        PageResult p ∈ results -> cp_spaceTitle p = None).
Proof.
  unfold searchSiteContent.
  destruct (Nat.leb_spec (length (arg_query args)) 1) as [Hq|Hq].
  { simpl. split.
    - split; [intros H; by apply elem_of_nil in H|]. intros [H _]. lia.
    - intros _ results p [= <-] H. by apply elem_of_nil in H. }
  split.
  - destruct (needsStructure (arg_scope args)) eqn:En.
    + split; [auto|]. intros _.
      destruct (api_searchSiteContent _ _ _ _ _ _);
        destruct (api_getSiteData collab (arg_pointer args)); simpl;
        apply list_elem_of_further, list_elem_of_here.
    + split; [|intros [_ H]; discriminate].
      destruct (api_searchSiteContent _ _ _ _ _ _); simpl;
        intros H;
        repeat (apply elem_of_cons in H as [H|H]; [discriminate H|]);
        by apply elem_of_nil in H.
  - intros En. rewrite En. simpl.
    destruct (api_searchSiteContent _ _ _ _ _ _) as [searchResults|];
      simpl; [|discriminate].
    intros results p [= <-] H. apply list_elem_of_In in H.
    apply (In_flat2 (fun _ item => transformPageResult collab item None))
      in H as (sp & item & _ & _ & H).
    unfold transformPageResult in H. simpl in H.
    destruct H as [[= <-]|H]; [reflexivity|].
    apply in_map_iff in H as (x & Hx & _). discriminate.
Qed.

Lemma searchSiteContent_structure_witness :
  Started (CallGetSiteData (mkPointer "org" "site" None None))
    ∈ (searchSiteContent searchBackend
         (mkSearchArgs (mkPointer "org" "site" None None) guideQuery
            ScopeAll None)).2.
Proof.
  apply (proj1 (searchSiteContent_structure searchBackend
                  (mkSearchArgs (mkPointer "org" "site" None None) guideQuery
                     ScopeAll None))).
  split; [simpl; lia|reflexivity].
Defined.

(** X14: [searchSiteSpaceContent] rejects without calling the backend when
    the pointer has no site-space id, whatever the query; with a site-space
    id and a query of at most one character it returns the empty list
    without calling the backend. *)
Theorem searchSiteSpaceContent_guards (collab : Collaborators)
  (query : JSString) (pointer : SiteContentPointer) (revisionId : string) :
  (truthy (siteSpaceId pointer) = None ->
   searchSiteSpaceContent collab query pointer revisionId = (Rejected, []))
  /\ (truthy (siteSpaceId pointer) <> None ->
      (length query <= 1)%nat ->
      searchSiteSpaceContent collab query pointer revisionId
      = (Fulfilled [], [])).
Proof.
  unfold searchSiteSpaceContent. split.
  - intros ->. reflexivity.
  - intros Hid Hq. destruct (truthy (siteSpaceId pointer)); [|congruence].
    unfold searchSiteContent. simpl.
    destruct (Nat.leb_spec (length query) 1); [reflexivity|lia].
Qed.

Lemma searchSiteSpaceContent_guards_witness :
  searchSiteSpaceContent searchBackend guideQuery
    (mkPointer "org" "site" (Some "") None) "rev"
  = (Rejected, [])
  /\ searchSiteSpaceContent searchBackend euroQuery
       (mkPointer "org" "site" (Some "ss-api") None) "rev"
     = (Fulfilled [], []).
Proof.
  split.
  - apply (proj1 (searchSiteSpaceContent_guards searchBackend guideQuery
                    (mkPointer "org" "site" (Some "") None) "rev")).
    reflexivity.
  - apply (proj2 (searchSiteSpaceContent_guards searchBackend euroQuery
                    (mkPointer "org" "site" (Some "ss-api") None) "rev")).
    + discriminate.
    + simpl. lia.
Defined.

(** X15: for a query longer than one character, [searchSiteSpaceContent]
    searches with the revision id as cache key; on a site without sections
    it calls the search of the one space and nothing else, so never fetches
    the site structure; on a site with sections it calls the search in mode
    [current] and then the fetch of the site data. *)
Theorem searchSiteSpaceContent_calls (collab : Collaborators)
  (query : JSString) (pointer : SiteContentPointer) (revisionId id : string) :
  truthy (siteSpaceId pointer) = Some id ->
  (1 < length query)%nat ->
  (truthy (siteSectionId pointer) = None ->
   startedCalls (searchSiteSpaceContent collab query pointer revisionId).2
   = [CallSearchSiteContent (organizationId pointer) (siteId pointer)
        query (ScopeSpecific [id]) (Some revisionId)])
  /\ (truthy (siteSectionId pointer) <> None ->
      startedCalls (searchSiteSpaceContent collab query pointer revisionId).2
      = [CallSearchSiteContent (organizationId pointer) (siteId pointer)
           query (ScopeCurrent id) (Some revisionId);
         CallGetSiteData pointer]).
Proof.
  intros Hid Hq. unfold searchSiteSpaceContent. rewrite Hid.
  unfold searchSiteContent. simpl.
  destruct (Nat.leb_spec (length query) 1); [lia|].
  split.
  - intros ->. simpl.
    destruct (api_searchSiteContent _ _ _ _ _ _); reflexivity.
  - intros Hs. destruct (truthy (siteSectionId pointer)); [|congruence]. simpl.
    destruct (api_searchSiteContent _ _ _ _ _ _);
      destruct (api_getSiteData collab pointer);
      destruct (siteDataSettlesFirst collab); reflexivity.
Qed.

Lemma searchSiteSpaceContent_calls_witness :
  startedCalls
    (searchSiteSpaceContent searchBackend guideQuery
       (mkPointer "org" "site" (Some "ss-api") (Some "sec-guides")) "rev").2
  = [CallSearchSiteContent "org" "site" guideQuery (ScopeCurrent "ss-api")
       (Some "rev");
     CallGetSiteData
       (mkPointer "org" "site" (Some "ss-api") (Some "sec-guides"))].
Proof.
  apply (proj2 (searchSiteSpaceContent_calls searchBackend guideQuery
                  (mkPointer "org" "site" (Some "ss-api") (Some "sec-guides"))
                  "rev" "ss-api" eq_refl ltac:(simpl; lia))).
  discriminate.
Defined.

(** X16: the records of a hit that belongs to a site-space with a published
    URL all link below that URL. *)
Theorem transformSitePageResult_hrefs (collab : Collaborators)
  (item : SearchPageResult) (siteSpace : SiteSpace) (published : string) :
  siteSpace_published siteSpace = Some published ->
  published <> "" ->
  Forall (fun r => String.prefix published (resultHref r) = true)
    (transformSitePageResult collab item (Some siteSpace)).
Proof.
  intros Hp Hne.
  assert (Hurl : forall path,
             String.prefix published
               (getURL collab path (Some published)) = true).
  { intros path. rewrite getURL_joined by assumption.
    destruct (endsWithSlash published).
    - apply prefix_append.
    - rewrite append_assoc. apply prefix_append. }
  unfold transformSitePageResult, transformSectionsAndPage. rewrite Hp.
  constructor; [apply Hurl|].
  apply Forall_forall. intros r Hr. apply list_elem_of_In in Hr.
  apply in_map_iff in Hr as (sec & <- & Hs).
  destruct (sr_page_sections item) as [sections|]; [|destruct Hs].
  apply in_map_iff in Hs as (x & <- & _). apply Hurl.
Qed.

Lemma transformSitePageResult_hrefs_witness :
  Forall (fun r => String.prefix "https://docs/api" (resultHref r) = true)
    (transformSitePageResult searchBackend sampleHit (Some apiSiteSpace)).
Proof.
  apply (transformSitePageResult_hrefs searchBackend sampleHit apiSiteSpace
           "https://docs/api" eq_refl).
  discriminate.
Defined.

(** ** The cache and the fetches of an answer *)

Section AnswerExtras.
Context (collab : Collaborators).

Lemma pMapSerial_rejects spaces :
  forall before : SpaceData,
    (pMapSerial spaces (fetchSpace collab) before).1.1 = Rejected
    <-> exists s, s ∈ spaces /\ before !! s = None
                  /\ api_getSpaceContentData collab s = None.
Proof.
  induction spaces as [|x rest IH]; intros before.
  - simpl. split; [discriminate|]. intros (s & H & _). by apply elem_of_nil in H.
  - simpl. unfold bind at 1. destruct (before !! x) as [known|] eqn:Ex.
    + rewrite fetchSpace_known by (rewrite Ex; eauto).
      specialize (IH before).
      destruct (pMapSerial rest (fetchSpace collab) before) as [[o sd] t].
      simpl in *. rewrite IH. split.
      * intros (s & Hs & Hn & Ha). exists s.
        split; [by apply list_elem_of_further|auto].
      * intros (s & [->|Hs]%elem_of_cons & Hn & Ha); [congruence|eauto].
    + rewrite fetchSpace_unknown by assumption.
      destruct (api_getSpaceContentData collab x) as [pages|] eqn:Ea.
      * specialize (IH (<[x:=pages]> before)).
        destruct (pMapSerial rest (fetchSpace collab) (<[x:=pages]> before))
          as [[o sd] t].
        simpl in *. rewrite IH. split.
        -- intros (s & Hs & Hn & Ha). exists s.
           split; [by apply list_elem_of_further|]. split; [|assumption].
           destruct (decide (x = s)) as [->|Hne]; [congruence|].
           by rewrite lookup_insert_ne in Hn.
        -- intros (s & [->|Hs]%elem_of_cons & Hn & Ha); [congruence|].
           exists s. split; [assumption|]. split; [|assumption].
           rewrite lookup_insert_ne; [assumption|]. intros ->. congruence.
      * simpl. split; [|reflexivity]. intros _. exists x.
        split; [apply list_elem_of_here|auto].
Qed.

Lemma pMapSerial_cached spaces (before : SpaceData) :
  (forall s, s ∈ spaces -> is_Some (before !! s)) ->
  pMapSerial spaces (fetchSpace collab) before = (Fulfilled tt, before, []).
Proof.
  induction spaces as [|x rest IH]; intros Hall; [reflexivity|].
  simpl. unfold bind.
  rewrite fetchSpace_known by apply Hall, list_elem_of_here.
  rewrite IH; [reflexivity|]. intros s Hs. by apply Hall, list_elem_of_further.
Qed.

Lemma filter_uncached_insert (before : SpaceData) x pages rest :
  x ∉ rest ->
  List.filter (uncached (<[x:=pages]> before)) rest
  = List.filter (uncached before) rest.
Proof.
  intros Hx. apply List.filter_ext_in. intros s Hs. unfold uncached.
  rewrite lookup_insert_ne; [reflexivity|].
  intros ->. apply Hx. by apply list_elem_of_In.
Qed.

Lemma pMapSerial_fetched spaces :
  NoDup spaces ->
  forall (before after : SpaceData) u t,
    pMapSerial spaces (fetchSpace collab) before = (Fulfilled u, after, t) ->
    fetchedSpaces t = List.filter (uncached before) spaces.
Proof.
  induction 1 as [|x rest Hx Hnd IH]; intros before after u t.
  - intros [= _ _ <-]. reflexivity.
  - simpl. unfold bind at 1. unfold uncached at 1.
    destruct (before !! x) as [known|] eqn:Ex.
    + rewrite fetchSpace_known by (rewrite Ex; eauto).
      destruct (pMapSerial rest (fetchSpace collab) before)
        as [[o sd] t'] eqn:E.
      intros [= -> <- <-]. rewrite bool_decide_eq_false_2 by discriminate.
      by eapply IH.
    + rewrite fetchSpace_unknown by assumption.
      destruct (api_getSpaceContentData collab x) as [pages|];
        [|discriminate].
      destruct (pMapSerial rest (fetchSpace collab) (<[x:=pages]> before))
        as [[o sd] t'] eqn:E.
      intros [= -> <- <-]. rewrite bool_decide_eq_true_2 by reflexivity.
      simpl. f_equal. rewrite (IH _ _ _ _ E).
      by apply filter_uncached_insert.
Qed.

Lemma referencedSpaces_NoDup answer : NoDup (referencedSpaces answer).
Proof.
  unfold referencedSpaces.
  assert (H : forall l acc,
             NoDup acc ->
             NoDup (fold_left
                      (fun set source =>
                         match source with
                         | SourcePage space _ => setAdd set space
                         | SourceOther _ => set
                         end) l acc)).
  { induction l as [|x l IH]; intros acc Hacc; [assumption|].
    simpl. apply IH. destruct x as [sp pg|k]; [|assumption].
    unfold setAdd. case_bool_decide as Hin; [assumption|].
    apply NoDup_app. split; [assumption|]. split; [|apply NoDup_singleton].
    intros s Hs ->%list_elem_of_singleton. auto. }
  apply H. constructor.
Qed.

Lemma source_spaces answer s :
  s ∈ referencedSpaces answer
  <-> exists pg, SourcePage s pg ∈ answer_sources answer.
Proof.
  rewrite referencedSpaces_elem, list_elem_of_omap. split.
  - intros ([sp pg|k] & Hin & [= <-]). eauto.
  - intros (pg & Hin). exists (SourcePage s pg). auto.
Qed.

Lemma filterOutNullable_elem {A : Type} (l : list (option A)) (a : A) :
  a ∈ filterOutNullable l <-> Some a ∈ l.
Proof.
  induction l as [|[x|] l IH]; simpl.
  - rewrite !elem_of_nil. tauto.
  - rewrite !elem_of_cons, IH. split; intros [H|H]; auto; left; congruence.
  - rewrite elem_of_cons, IH. split; [auto|]. intros [H|H]; [discriminate|auto].
Qed.

Lemma consumeStream_yielded stream :
  forall before yielded o after t,
    consumeStream collab stream before = (yielded, o, after, t) ->
    Forall2 FromChunk yielded (take (length yielded) (answerChunks stream))
    /\ (o = Fulfilled tt -> length yielded = length (answerChunks stream)).
Proof.
  induction stream as [|[chunk|] rest IH]; intros before yielded o after t;
    simpl.
  - intros [= <- <- <- <-]. split; [constructor|reflexivity].
  - rewrite transformAnswer_eq.
    destruct (pMapSerial _ _ _) as [[[[]|] mid] t1].
    + destruct (consumeStream collab rest mid) as [[[ys o2] sd2] t2] eqn:E2.
      intros [= <- <- <- <-]. destruct (IH _ _ _ _ _ E2) as [IH1 IH2].
      simpl. split.
      * constructor; [split; reflexivity|exact IH1].
      * intros Ho. by rewrite IH2.
    + intros [= <- <- <- <-]. split; [constructor|discriminate].
  - apply IH.
Qed.

Lemma consumeStream_sources stream :
  forall (before : SpaceData) yielded o after t,
    (forall s pages, before !! s = Some pages ->
                     api_getSpaceContentData collab s = Some pages) ->
    consumeStream collab stream before = (yielded, o, after, t) ->
    Forall (fun result => Forall (LinksToPage collab) (sources result)) yielded.
Proof.
  induction stream as [|[chunk|] rest IH];
    intros before yielded o after t Hb; simpl.
  - intros [= <- <- <- <-]. constructor.
  - destruct (transformAnswer collab (chunk_answer chunk) before)
      as [[o1 mid] t1] eqn:E1.
    pose proof (transformAnswer_run _ _ _ _ _ _ E1) as [_ _ _ _ Hfrom _ _].
    assert (Hmid : forall s pages, mid !! s = Some pages ->
                     api_getSpaceContentData collab s = Some pages).
    { intros s pages Hs. destruct (Hfrom s pages Hs) as [H|[_ H]]; auto. }
    rewrite transformAnswer_eq in E1.
    destruct (pMapSerial _ _ _) as [[[[]|] mid'] t1'];
      injection E1 as <- <- <-.
    + destruct (consumeStream collab rest mid') as [[[ys o2] sd2] t2] eqn:E2.
      intros [= <- <- <- <-]. constructor; [|by eapply IH].
      simpl. apply Forall_forall. intros out Hout.
      apply filterOutNullable_elem, list_elem_of_In in Hout.
      apply in_map_iff in Hout as (source & Hsrc & _).
      destruct (resolveSource_describes _ _ _ _ Hsrc)
        as (ref & _ & _ & pages & r & Hc & Hr & ->).
      exists ref.1, pages, r. simpl. repeat split; auto.
      apply resolvePageId_located in Hr. apply Hr.
    + intros [= <- <- <- <-]. constructor.
  - by apply IH.
Qed.

End AnswerExtras.

(** X17: [transformAnswer] rejects exactly when the answer has a page source
    in a space that is not in the cache and whose page list the backend
    fails to return. *)
Theorem transformAnswer_rejects_iff (collab : Collaborators)
  (answer : SearchAIAnswer) (spaceData : SpaceData) :
  (transformAnswer collab answer spaceData).1.1 = Rejected
  <-> exists space pg,
        SourcePage space pg ∈ answer_sources answer
        /\ spaceData !! space = None
        /\ api_getSpaceContentData collab space = None.
Proof.
  rewrite transformAnswer_eq.
  pose proof (pMapSerial_rejects collab (referencedSpaces answer) spaceData)
    as H.
  destruct (pMapSerial _ _ _) as [[[[]|] sd] t]; simpl in *.
  - split; [discriminate|]. intros (space & pg & Hin & Hn & Ha).
    assert (Hr : @Fulfilled unit () = Rejected); [|discriminate Hr].
    apply H. exists space. split; [|auto]. apply source_spaces. eauto.
  - split; [|reflexivity]. intros _.
    destruct (proj1 H eq_refl) as (s & Hs & Hn & Ha).
    apply source_spaces in Hs as (pg & Hin). eauto.
Qed.

Lemma transformAnswer_rejects_iff_witness :
  (transformAnswer failingBackend answerFromS ∅).1.1 = Rejected.
Proof.
  apply (proj2 (transformAnswer_rejects_iff failingBackend answerFromS ∅)).
  exists "S", "p1". split; [apply list_elem_of_here|].
  split; [apply lookup_empty|reflexivity].
Defined.

(** X18: the spaces gathered from an answer are without duplicates and are
    the spaces of its page sources; when [transformAnswer] fulfils, the page
    lists it requested are those of the gathered spaces that were not in the
    cache, one request each, in the order they were gathered. *)
Theorem transformAnswer_fetches (collab : Collaborators)
  (answer : SearchAIAnswer) (before after : SpaceData)
  (result : AskAnswerResult) (t : Trace) :
  transformAnswer collab answer before = (Fulfilled result, after, t) ->
  NoDup (referencedSpaces answer)
  /\ (forall s, s ∈ referencedSpaces answer
                <-> exists pg, SourcePage s pg ∈ answer_sources answer)
  /\ fetchedSpaces t
     = List.filter (uncached before) (referencedSpaces answer).
Proof.
  intros H. split; [apply referencedSpaces_NoDup|].
  split; [apply source_spaces|].
  rewrite transformAnswer_eq in H.
  destruct (pMapSerial _ _ _) as [[[u|] sd] t'] eqn:E; [|discriminate].
  injection H as _ _ <-.
  eapply pMapSerial_fetched; [apply referencedSpaces_NoDup|exact E].
Qed.

Lemma transformAnswer_fetches_witness :
  fetchedSpaces
    [Started (CallGetSpaceContentData "S");
     Settled (CallGetSpaceContentData "S")]
  = List.filter (uncached ∅)
      (referencedSpaces
         (mkAnswer None []
            [SourcePage "S" "p2"; SourceOther "entity"; SourcePage "S" "p1"])).
Proof.
  exact (proj2 (proj2
           (transformAnswer_fetches backendWithS _ _ _ _ _
              transformAnswer_backendWithS))).
Defined.

(** X19: when the space of every page source of the answer is already in
    the cache, [transformAnswer] calls nothing, leaves the cache as it is
    and resolves the sources in the cached page lists. *)
Theorem transformAnswer_cache_hit (collab : Collaborators)
  (answer : SearchAIAnswer) (spaceData : SpaceData) :
  (forall space pg,
      SourcePage space pg ∈ answer_sources answer ->
      is_Some (spaceData !! space)) ->
  transformAnswer collab answer spaceData
  = (Fulfilled
       (mkAnswerResult (renderBody (answer_answer answer))
          (answer_followupQuestions answer)
          (filterOutNullable
             (map (resolveSource collab spaceData) (answer_sources answer)))),
     spaceData, []).
Proof.
  intros H. rewrite transformAnswer_eq, pMapSerial_cached; [reflexivity|].
  intros s (pg & Hin)%source_spaces. eauto.
Qed.

Lemma transformAnswer_cache_hit_witness :
  transformAnswer failingBackend answerFromS
    (<["S" := [Document "p1" "one" "One" []]]> ∅)
  = (Fulfilled
       (mkAnswerResult (renderBody (Some (ContentDocument "doc")))
          ["What next?"]
          (filterOutNullable
             (map (resolveSource failingBackend
                     (<["S" := [Document "p1" "one" "One" []]]> ∅))
                [SourcePage "S" "p1"]))),
     <["S" := [Document "p1" "one" "One" []]]> ∅, []).
Proof.
  apply (transformAnswer_cache_hit failingBackend answerFromS
           (<["S" := [Document "p1" "one" "One" []]]> ∅)).
  intros space pg [[= -> ->]|H]%elem_of_cons.
  - rewrite lookup_insert_eq. eauto.
  - by apply elem_of_nil in H.
Defined.

(** X20: [transformAnswer] never removes or replaces an entry of the cache,
    whether it fulfils or rejects; an entry it adds is the page list that
    the backend returned for a space of a page source of the answer. *)
Theorem transformAnswer_cache_grows (collab : Collaborators)
  (answer : SearchAIAnswer) (before after : SpaceData)
  (o : Outcome AskAnswerResult) (t : Trace) :
  transformAnswer collab answer before = (o, after, t) ->
  (forall s pages, before !! s = Some pages -> after !! s = Some pages)
  /\ (forall s pages,
         after !! s = Some pages ->
         before !! s = Some pages
         \/ (before !! s = None
             /\ api_getSpaceContentData collab s = Some pages
             /\ exists pg, SourcePage s pg ∈ answer_sources answer)).
Proof.
  intros H. apply transformAnswer_run in H. destruct H as [_ _ C D E _ _].
  split; [exact D|]. intros s pages Hs.
  destruct (E s pages Hs) as [Hb|[Hf Ha]]; [by left|]. right.
  destruct (C s Hf) as [Hn Hin]. split; [assumption|]. split; [assumption|].
  apply list_elem_of_omap in Hin as ([sp pg|k] & Hin & [= <-]). eauto.
Qed.

Lemma transformAnswer_cache_grows_witness :
  (∅ : SpaceData) !! "S" = Some [Document "p2" "intro" "Intro" []]
  \/ ((∅ : SpaceData) !! "S" = None
      /\ api_getSpaceContentData backendWithS "S"
         = Some [Document "p2" "intro" "Intro" []]
      /\ exists pg,
           SourcePage "S" pg
             ∈ [SourcePage "S" "p2"; SourceOther "entity";
                SourcePage "S" "p1"]).
Proof.
  apply (proj2 (transformAnswer_cache_grows backendWithS _ _ _ _ _
                  transformAnswer_backendWithS) "S").
  apply lookup_insert_eq.
Defined.

(** X21: [streamAskQuestion] yields one result per non-empty chunk, in the
    order of the stream, each with the follow-up questions and the body of
    its chunk; empty chunks yield nothing.  When a fetch fails the results
    yielded so far are those of the chunks before the failing one. *)
Theorem streamAskQuestion_yields_per_chunk (collab : Collaborators)
  (organizationId siteId : string) (siteSpaceId : option string)
  (question : string) :
  let run :=
    streamAskQuestion collab organizationId siteId siteSpaceId question in
  let chunks :=
    answerChunks
      (askStream collab organizationId siteId siteSpaceId question) in
  Forall2 FromChunk (yieldedOf run) (take (length (yieldedOf run)) chunks)
  /\ (outcomeOf run = Fulfilled tt ->
      length (yieldedOf run) = length chunks).
Proof.
  intros run chunks. subst run chunks. unfold streamAskQuestion.
  destruct (consumeStream collab _ ∅) as [[[ys o] cache] t] eqn:E.
  exact (consumeStream_yielded collab _ _ _ _ _ _ E).
Qed.

Lemma streamAskQuestion_yields_per_chunk_witness :
  length (yieldedOf (streamAskQuestion backendWithS "org" "site" None "How?"))
  = 2.
Proof.
  apply (proj2 (streamAskQuestion_yields_per_chunk backendWithS
                  "org" "site" None "How?")).
  vm_compute. reflexivity.
Defined.

(** X22: every source of every result yielded by [streamAskQuestion] links
    to a document that its page id resolves to in the page list the backend
    returned for a space; no source carries a link made up otherwise. *)
Theorem streamAskQuestion_sources_resolve (collab : Collaborators)
  (organizationId siteId : string) (siteSpaceId : option string)
  (question : string) :
  Forall (fun result => Forall (LinksToPage collab) (sources result))
    (yieldedOf
       (streamAskQuestion collab organizationId siteId siteSpaceId question)).
Proof.
  unfold streamAskQuestion.
  destruct (consumeStream collab _ ∅) as [[[ys o] cache] t] eqn:E.
  apply (consumeStream_sources collab _ ∅ _ _ _ _) in E; [exact E|].
  intros s pages H. rewrite lookup_empty in H. discriminate.
Qed.
